(** * Registry name resolution, login fallback and federated search

    A shallow embedding of the Go packages [reference] and [registry] of the
    engine: reference-name normalisation ([splitDockerDomain],
    [ParseNormalizedNamed], [trimDefaultRegistry]), reference qualification
    ([QualifyUnqualifiedReference]), endpoint lookup, the login loop of
    [Auth], and the search aggregator ([Search], [searchTerm], the ranking
    comparator and [removeSearchDuplicates]).

    Go strings are byte strings: they are modelled by [string].  The Go
    sentinel index [-1] of [strings.Index]/[strings.IndexRune] is [None].
    Go's [int] star counts are only ever compared, and are modelled in [Z]. *)

From Stdlib Require Import ZArith Lia Bool Ascii Sorting.Sorted.
From stdpp Require Import base list strings sorting.

Local Open Scope Z_scope.

(** Go's [+] on strings computes where its first argument is known. *)
#[local] Arguments String.append !_ _ / : simpl nomatch.

(** ** The functions of Go's [strings] package that the code calls *)

Module strings.

(** [s[:n]] *)
Fixpoint take (n : nat) (s : string) : string :=
  match n, s with
  | O, _ => ""
  | S _, EmptyString => ""
  | S n', String a s' => String a (take n' s')
  end.

(** [s[n:]] *)
Fixpoint drop (n : nat) (s : string) : string :=
  match n, s with
  | O, _ => s
  | S _, EmptyString => ""
  | S n', String _ s' => drop n' s'
  end.

(** [strings.IndexRune(s, c)] for a one-byte rune [c]; [None] is [-1]. *)
Fixpoint IndexRune (s : string) (c : ascii) : option nat :=
  match s with
  | EmptyString => None
  | String a s' =>
      if Ascii.eqb a c then Some O
      else match IndexRune s' c with
           | Some i => Some (S i)
           | None => None
           end
  end.

Definition ContainsRune (s : string) (c : ascii) : bool :=
  match IndexRune s c with Some _ => true | None => false end.

(** [strings.ContainsAny(s, chars)] *)
Fixpoint ContainsAny (s chars : string) : bool :=
  match s with
  | EmptyString => false
  | String a s' => ContainsRune chars a || ContainsAny s' chars
  end.

(** [strings.HasPrefix(s, p)] *)
Fixpoint HasPrefix (s p : string) {struct p} : bool :=
  match p, s with
  | EmptyString, _ => true
  | String _ _, EmptyString => false
  | String b p', String a s' => Ascii.eqb a b && HasPrefix s' p'
  end.

(** [strings.Index(s, sub)]; [None] is [-1]. *)
Fixpoint Index (s sub : string) : option nat :=
  if HasPrefix s sub then Some O
  else match s with
       | EmptyString => None
       | String _ s' =>
           match Index s' sub with
           | Some i => Some (S i)
           | None => None
           end
       end.

Definition Contains (s sub : string) : bool :=
  match Index s sub with Some _ => true | None => false end.

(** [strings.Replace(s, old, new, 1)]: the first occurrence of [old] is
    replaced, and [s] is returned as it is when there is none. *)
Definition Replace1 (s old new : string) : string :=
  match Index s old with
  | Some i => take i s +:+ new +:+ drop (i + String.length old) s
  | None => s
  end.

(** [strings.SplitN(s, sep, 2)] for a non-empty [sep]. *)
Definition SplitN2 (s sep : string) : list string :=
  match Index s sep with
  | Some i => [take i s; drop (i + String.length sep) s]
  | None => [s]
  end.

Definition is_upper (a : ascii) : bool :=
  (65 <=? nat_of_ascii a)%nat && (nat_of_ascii a <=? 90)%nat.

Definition lower (a : ascii) : ascii :=
  if is_upper a then ascii_of_nat (nat_of_ascii a + 32) else a.

(** [strings.ToLower(s)] on the ASCII letters, the only letters the
    reference grammar has. *)
Fixpoint ToLower (s : string) : string :=
  match s with
  | EmptyString => ""
  | String a s' => String (lower a) (ToLower s')
  end.

(** Some letter of [s] is an upper-case one. *)
Fixpoint has_upper (s : string) : bool :=
  match s with
  | EmptyString => false
  | String a s' => is_upper a || has_upper s'
  end.

End strings.

(** Go functions return a value together with an [error]: [Ok v] stands for
    [(v, nil)] and [Err e] for a non-nil error [e]. *)
Inductive result (E A : Type) : Type :=
  | Ok (v : A)
  | Err (e : E).
Arguments Ok {E A} v.
Arguments Err {E A} e.

(** ** Package [reference] *)

Module reference.

Import strings.

(** *** The interface of [github.com/docker/distribution/reference]

    The generic reference grammar is an external library.  Its values and
    functions are an interface here; the code of this package is written
    over any implementation of it. *)
Class Distribution := {
  (* values of the interface [reference.Named] *)
  Named : Type;
  (* errors of the library *)
  RefError : Type;
  (* [Named.Name()] *)
  Name : Named -> string;
  (* [tagged.Tag()] when the value implements [reference.Tagged] *)
  Tag : Named -> option string;
  (* [digested.Digest()] when the value implements [reference.Digested] *)
  Digest : Named -> option string;
  WithName : string -> result RefError Named;
  WithTag : Named -> string -> result RefError Named;
  WithDigest : Named -> string -> result RefError Named;
  SplitHostname : Named -> string * string;
  (* [reference.Parse]: an error, or a reference, which is [Named]
      ([inl]) or has no name ([inr], a digest-only reference, given by its
      [String()]) *)
  Parse : string -> result RefError (Named + string);
}.

(** The errors of this package, with the text the code gives them. *)
Inductive error `{Distribution} : Type :=
  | ErrIdentifier (s : string)
    (* "invalid repository name (%s), cannot specify 64-byte hexadecimal strings" *)
  | ErrNotLowercase
    (* "invalid reference format: repository name must be lowercase" *)
  | ErrNoName (ref : string)
    (* "reference %s has no name" *)
  | ErrInvalidHostname (indexName : string)
    (* "Invalid hostname %q" *)
  | ErrLibrary (e : RefError).

(** What the parsers make of the result of [reference.Parse]: its error,
    the reference when it is [Named], and an error for a reference that
    has no name. *)
Definition asNamed `{Distribution} (parsed : result RefError (Named + string))
    : result error Named :=
  match parsed with
  | Err err => Err (ErrLibrary err)
  | Ok (inl named) => Ok named
  | Ok (inr str) => Err (ErrNoName str)
  end.

(** The errors of the class [InvalidFormat] that the package raises by
    itself. *)
Definition InvalidFormat `{Distribution} (e : error) : bool :=
  match e with
  | ErrIdentifier _ | ErrNotLowercase => true
  | _ => false
  end.

Definition is_digit (a : ascii) : bool :=
  (48 <=? nat_of_ascii a)%nat && (nat_of_ascii a <=? 57)%nat.

(** [[a-f0-9]] *)
Definition is_hex (a : ascii) : bool :=
  is_digit a || ((97 <=? nat_of_ascii a)%nat && (nat_of_ascii a <=? 102)%nat).

(** [[a-fA-F0-9]]: a hexadecimal digit in either case *)
Definition is_hex_any_case (a : ascii) : bool :=
  is_hex a || ((65 <=? nat_of_ascii a)%nat && (nat_of_ascii a <=? 70)%nat).

Fixpoint all_chars (p : ascii -> bool) (s : string) : bool :=
  match s with
  | EmptyString => true
  | String a s' => p a && all_chars p s'
  end.

(** Modelled from the spec: the regular expression
    [anchoredIdentifierRegexp] is declared outside the files at hand; the
    spec has [anchoredIdentifierRegexp.MatchString] accept "a bare
    64-hex-character string", the form of a content digest. *)
Definition anchoredIdentifierRegexp_MatchString (s : string) : bool :=
  (String.length s =? 64)%nat && all_chars is_hex s.

(** [isValidHostname] (utils.go) *)
Definition isValidHostname (hostname : string) : bool :=
  negb (String.eqb hostname "") && negb (Contains hostname "/") &&
  (Contains hostname "." || Contains hostname ":" ||
   String.eqb hostname "localhost").

(** What counts as a domain: it has a ['.'] or a [':'], or is
    [localhost].  It is then not empty. *)
Definition is_domain (d : string) : bool :=
  ContainsAny d ".:" || String.eqb d "localhost".

(** The first part of [splitDockerDomain], the same in both files. *)
Definition splitDomain (name : string) : string * string :=
  match IndexRune name "/" with
  | None => ("", name)
  | Some i =>
      if negb (ContainsAny (take i name) ".:") &&
         negb (String.eqb (take i name) "localhost")
      then ("", name)
      else (take i name, drop (i + 1) name)
  end.

(** [remainder[:tagSep]], or [remainder] when it has no [':'] *)
Definition remoteNameOf (remainder : string) : string :=
  match IndexRune remainder ":" with
  | Some tagSep => take tagSep remainder
  | None => remainder
  end.

(** *** The file with [ParseNormalizedNamed] and [trimDefaultRegistry] *)
Module part_000.
Section part_000.

Context `{Distribution}.
(** [registry.DefaultRegistries] *)
Variable DefaultRegistries : list string.

Fixpoint splitDockerDomain_range (rs : list string)
    (domain remainder : string) : string * string :=
  match rs with
  | [] => (domain, remainder)
  | r :: rs' =>
      if (String.eqb domain r || String.eqb domain "") &&
         negb (ContainsRune remainder "/")
      then (domain, "library/" +:+ remainder)
      else splitDockerDomain_range rs' domain remainder
  end.

Definition splitDockerDomain (name : string) : string * string :=
  let '(domain, remainder) := splitDomain name in
  splitDockerDomain_range DefaultRegistries domain remainder.

(** The string [sn] that [ParseNormalizedNamed] hands to
    [reference.Parse]. *)
Definition normalizedName (s : string) : string :=
  let '(domain, remainder) := splitDockerDomain s in
  if String.eqb domain "" then remainder
  else domain +:+ "/" +:+ remainder.

Definition ParseNormalizedNamed (s : string) : result error Named :=
  if anchoredIdentifierRegexp_MatchString s then Err (ErrIdentifier s)
  else
    let '(domain, remainder) := splitDockerDomain s in
    let remoteName := remoteNameOf remainder in
    if negb (String.eqb (ToLower remoteName) remoteName)
    then Err ErrNotLowercase
    else
      let sn := if String.eqb domain "" then remainder
                else domain +:+ "/" +:+ remainder in
      asNamed (Parse sn).

Fixpoint trimDefaultRegistry_range (rs : list string)
    (s domain : string) : string :=
  match rs with
  | [] => s
  | r :: rs' =>
      if String.eqb domain r then
        match Index s (domain +:+ "/library") with
        | Some _ => Replace1 s (r +:+ "/library/") ""
        | None => Replace1 s (r +:+ "/") ""
        end
      else trimDefaultRegistry_range rs' s domain
  end.

Definition trimDefaultRegistry (s : string) : string :=
  let '(domain, _) := splitDockerDomain s in
  trimDefaultRegistry_range DefaultRegistries s domain.

End part_000.
End part_000.

(** *** utils.go *)
Module utils.
Section utils.

Context `{Distribution}.

(** [SubstituteReferenceName] *)
Definition SubstituteReferenceName (ref : Named) (reposName : string)
    : result error Named :=
  match WithName reposName with
  | Err err => Err (ErrLibrary err)
  | Ok reposNameRef =>
      match Tag ref with
      | Some tag =>
          match WithTag reposNameRef tag with
          | Err err => Err (ErrLibrary err)
          | Ok newRef => Ok newRef
          end
      | None =>
          match Digest ref with
          | Some digest =>
              match WithDigest reposNameRef digest with
              | Err err => Err (ErrLibrary err)
              | Ok newRef => Ok newRef
              end
          | None => Ok reposNameRef
          end
      end
  end.

(** [SplitReposName]: the index name, and the remote name or the error of
    [WithName] *)
Definition SplitReposName (reposName : Named)
    : string * result error Named :=
  let '(indexName, remoteNameStr) := SplitHostname reposName in
  if negb (isValidHostname indexName) then ("", Ok reposName)
  else
    match WithName remoteNameStr with
    | Err err => (indexName, Err (ErrLibrary err))
    | Ok remoteName => (indexName, Ok remoteName)
    end.

(** [IsReferenceFullyQualified] *)
Definition IsReferenceFullyQualified (reposName : Named) : bool :=
  negb (String.eqb (fst (SplitReposName reposName)) "").

(** [UnqualifyReference]: the reference itself where [SplitReposName] or
    [SubstituteReferenceName] gives an error *)
Definition UnqualifyReference (ref : Named) : Named :=
  match SplitReposName ref with
  | (_, Err _) => ref
  | (_, Ok remoteName) =>
      match SubstituteReferenceName ref (Name remoteName) with
      | Err _ => ref
      | Ok newRef => newRef
      end
  end.

(** [QualifyUnqualifiedReference] *)
Definition QualifyUnqualifiedReference (ref : Named) (indexName : string)
    : result error Named :=
  if negb (isValidHostname indexName) then Err (ErrInvalidHostname indexName)
  else
    match SplitReposName ref with
    | (_, Err err) => Err err
    | (orig, Ok remoteName) =>
        if String.eqb orig "" then
          SubstituteReferenceName ref (indexName +:+ "/" +:+ Name remoteName)
        else Ok ref
    end.

End utils.
End utils.

(** *** The file with [ParseNamed]

    Its reference utilities are those of utils.go, word for word. *)
Module part_001.
Section part_001.

Context `{Distribution}.
(** [registry.DefaultNamespace] and [registry.DefaultRegistry] *)
Variables DefaultNamespace DefaultRegistry : string.

Definition splitDockerDomain (name : string) : string * string :=
  let '(domain, remainder) := splitDomain name in
  if (String.eqb domain DefaultNamespace ||
      String.eqb domain DefaultRegistry || String.eqb domain "") &&
     negb (ContainsRune remainder "/")
  then (domain, "library/" +:+ remainder)
  else (domain, remainder).

Definition ParseNamed (s : string) : result error Named :=
  let '(domain, remainder) := splitDockerDomain s in
  let remoteName := remoteNameOf remainder in
  if negb (String.eqb (ToLower remoteName) remoteName)
  then Err ErrNotLowercase
  else
    let sn := if String.eqb domain "" then remainder
              else domain +:+ "/" +:+ remainder in
    asNamed (Parse sn).

End part_001.
End part_001.

(** *** A small implementation of the interface

    A reference is a name with an optional tag and digest.  A name is
    accepted when it is not empty; its host is what stands before the
    first ['/'] when that has a ['.'] or is [localhost]; the tag of a raw
    name follows its first [':'] and the digest its ['@'], hosts having no
    port here.  It serves to run the code on concrete references. *)
Module simple.

Record named := { name : string; tag : option string; digest : option string }.

Definition withName (s : string) : result string named :=
  if String.eqb s "" then Err "invalid reference format"
  else Ok {| name := s; tag := None; digest := None |}.

Definition parse (s : string) : result string (named + string) :=
  match IndexRune s "@" with
  | Some O => Ok (inr (drop 1 s))
  | Some i =>
      Ok (inl {| name := take i s; tag := None; digest := Some (drop (i + 1) s) |})
  | None =>
      match withName (remoteNameOf s) with
      | Err e => Err e
      | Ok n =>
          match IndexRune s ":" with
          | Some i => Ok (inl {| name := name n; tag := Some (drop (i + 1) s);
                                 digest := None |})
          | None => Ok (inl n)
          end
      end
  end.

#[export] Instance distribution : Distribution := {|
  Named := named;
  RefError := string;
  Name := name;
  Tag := tag;
  Digest := digest;
  WithName := withName;
  WithTag := fun n t => Ok {| name := name n; tag := Some t; digest := None |};
  WithDigest := fun n d => Ok {| name := name n; tag := None; digest := Some d |};
  SplitHostname := fun n => splitDomain (name n);
  Parse := parse;
|}.

End simple.

End reference.

(** ** Package [registry] (service.go) *)

Module registrytypes.

(** One entry of a provider's answer. *)
Module SearchResult.
Record t := {
  StarCount : Z;
  IsOfficial : bool;
  Name : string;
  IsAutomated : bool;
  Description : string;
}.
End SearchResult.

Record SearchResults := {
  Query : string;
  NumResults : Z;
  Results : list SearchResult.t;
}.

Record SearchResultExt := {
  IndexName : string;
  RegistryName : string;
  StarCount : Z;
  Name : string;
  IsOfficial : bool;
  IsAutomated : bool;
  Description : string;
}.

Record IndexInfo := {
  IndexInfo_Name : string;
  Mirrors : list string;
  Secure : bool;
  Official : bool;
}.

End registrytypes.

Module types.

Record AuthConfig := {
  Username : string;
  Password : string;
  ServerAddress : string;
  IdentityToken : string;
}.

End types.

Module registry.

Import strings registrytypes.

(** Go's [error] values of this package: an error with its text, or a
    [fallbackError] wrapped around another error. *)
Inductive error : Type :=
  | errorString (msg : string)
  | fallbackError (err : error)
  | errInvalidParameter (err : error).

(** Modelled from the spec: the type [APIVersion] is declared outside the
    files at hand; the spec has an endpoint's version be one of V1 and
    V2. *)
Inductive APIVersion := APIVersion1 | APIVersion2.

(** A TLS client configuration, [*tls.Config], is opaque. *)
Inductive tlsConfig := TLS (InsecureSkipVerify : bool).

Record APIEndpoint := {
  Mirror : bool;
  URL : string;
  Version : APIVersion;
  AllowNondistributableArtifacts : bool;
  Official : bool;
  TrimHostname : bool;
  TLSConfig : tlsConfig;
}.

(** *** Ranking of search results *)

(** The function [less] that [getSearchResultsCmpFunc] returns. *)
Definition getSearchResultsCmpFunc (withIndex : bool)
    (fst snd : SearchResultExt) : bool :=
  if withIndex && negb (String.eqb (IndexName fst) (IndexName snd))
  then String.ltb (IndexName fst) (IndexName snd)
  else if withIndex && negb (StarCount fst =? StarCount snd)
  then StarCount fst >? StarCount snd
  else if negb (String.eqb (RegistryName fst) (RegistryName snd))
  then String.ltb (RegistryName fst) (RegistryName snd)
  else if negb withIndex && negb (StarCount fst =? StarCount snd)
  then StarCount fst >? StarCount snd
  else if negb (String.eqb (Name fst) (Name snd))
  then String.ltb (Name fst) (Name snd)
  else String.ltb (Description fst) (Description snd).

(** The ranking in the words of the spec: the keys are compared one after
    the other, each in its direction, and the first that differs
    decides. *)
Definition then_by (c1 c2 : comparison) : comparison :=
  match c1 with Eq => c2 | _ => c1 end.

Definition asc (a b : string) : comparison := String.compare a b.

Definition desc (a b : Z) : comparison := Z.compare b a.

Definition ranking (noIndex : bool) (a b : SearchResultExt) : comparison :=
  if noIndex then
    then_by (asc (RegistryName a) (RegistryName b))
      (then_by (desc (StarCount a) (StarCount b))
         (then_by (asc (Name a) (Name b))
            (asc (Description a) (Description b))))
  else
    then_by (asc (IndexName a) (IndexName b))
      (then_by (desc (StarCount a) (StarCount b))
         (then_by (asc (RegistryName a) (RegistryName b))
            (then_by (asc (Name a) (Name b))
               (asc (Description a) (Description b))))).

(** What makes a comparison an order on what it looks at. *)
Class KeyOrder {A} (cmp : A -> A -> comparison) : Prop := {
  ko_antisym : forall a b, cmp b a = CompOpp (cmp a b);
  ko_trans : forall a b c, cmp a b = Lt -> cmp b c = Lt -> cmp a c = Lt;
  ko_eq : forall a b c, cmp a b = Eq -> cmp a c = cmp b c;
}.

(** The four keys of the ranking that leaves the index out. *)
Definition key_noIndex (r : SearchResultExt) : string * Z * string * string :=
  (RegistryName r, StarCount r, Name r, Description r).

(** [sort.Sort] belongs to Go's library.  What it promises is that its
    result is a rearrangement of its argument in which no element is
    [less] than one that stands before it. *)
Definition sorted_by {A} (less : A -> A -> bool) (l : list A) : Prop :=
  forall i j x y, (i < j)%nat -> l !! i = Some x -> l !! j = Some y ->
    less y x = false.

(** [y] may stand after [x]: it is not [less] than [x]. *)
Definition in_order {A} (less : A -> A -> bool) (x y : A) : Prop :=
  less y x = false.

Definition sort_contract {A} (less : A -> A -> bool) (data out : list A) : Prop :=
  Permutation data out /\ sorted_by less out.

(** An insertion sort stands for [by.Sort] where the code is run. *)
Fixpoint Sort_insert {A} (less : A -> A -> bool) (x : A) (l : list A) : list A :=
  match l with
  | [] => [x]
  | y :: l' => if less x y then x :: l else y :: Sort_insert less x l'
  end.

Fixpoint Sort {A} (less : A -> A -> bool) (results : list A) : list A :=
  match results with
  | [] => []
  | x :: l => Sort_insert less x (Sort less l)
  end.

(** [splitReposSearchTerm]; [IndexServerName] is [IndexServerName()], which
    is called when [fixMissingIndex] is set. *)
Definition splitReposSearchTerm (IndexServerName : string)
    (reposName : string) (fixMissingIndex : bool) : string * string :=
  let docker_index :=
    (if fixMissingIndex then IndexServerName else "", reposName) in
  match SplitN2 reposName "/" with
  | [nameParts0; nameParts1] =>
      if negb (Contains nameParts0 ".") && negb (Contains nameParts0 ":") &&
         negb (String.eqb nameParts0 "localhost")
      then docker_index
      else (nameParts0, nameParts1)
  | _ => docker_index
  end.

(** [isReposSearchTermFullyQualified]; no index name is filled in here. *)
Definition isReposSearchTermFullyQualified (term : string) : bool :=
  let '(indexName, _) := splitReposSearchTerm "" term false in
  negb (String.eqb indexName "").

(** *** Removal of duplicates *)
Section dedup.

(** [QueryRegistries()] *)
Variable QueryRegistries : list string.

(** [for prio = 0; prio < len(QueryRegistries()); prio++] with its
    [break]: the position of [indexName], or the length of the list. *)
Fixpoint prio_range (rs : list string) (indexName : string) (prio : nat) : nat :=
  match rs with
  | [] => prio
  | r :: rs' =>
      if String.eqb indexName r then prio
      else prio_range rs' indexName (S prio)
  end.

Definition prio (indexName : string) : nat :=
  prio_range QueryRegistries indexName 0.

(** One turn of the loop of [removeSearchDuplicates] on [res] and
    [prevIndex]; [None] is the panic of an index out of range. *)
Definition removeSearchDuplicates_step (st : list SearchResultExt * nat)
    (curr : SearchResultExt) : option (list SearchResultExt * nat) :=
  let '(res, prevIndex) := st in
  match res !! prevIndex with
  | None => None
  | Some prev =>
      if String.eqb (RegistryName prev) (RegistryName curr) &&
         String.eqb (Name prev) (Name curr)
      then
        let prioPrev := prio (IndexName prev) in
        let prioCurr := prio (IndexName curr) in
        if (prioCurr <? prioPrev)%nat ||
           ((prioPrev =? prioCurr)%nat && (StarCount prev <? StarCount curr))
        then Some (<[prevIndex := curr]> res, prevIndex)
        else Some (res, prevIndex)
      else Some (res ++ [curr], S prevIndex)
  end.

Fixpoint removeSearchDuplicates_range (data : list SearchResultExt)
    (st : list SearchResultExt * nat) : option (list SearchResultExt) :=
  match data with
  | [] => Some (st.1)
  | curr :: data' =>
      match removeSearchDuplicates_step st curr with
      | None => None
      | Some st' => removeSearchDuplicates_range data' st'
      end
  end.

Definition removeSearchDuplicates (data : list SearchResultExt)
    : option (list SearchResultExt) :=
  match data with
  | [] => Some []
  | data0 :: data' => removeSearchDuplicates_range data' ([data0], O)
  end.

(** The removal of duplicates in the words of the spec: of two entries
    that collide, the one of the index that comes first in the
    configured order is kept, and the one with more stars when the
    indexes come at the same place. *)
Definition collide (a b : SearchResultExt) : bool :=
  String.eqb (RegistryName a) (RegistryName b) && String.eqb (Name a) (Name b).

Definition keep (prev curr : SearchResultExt) : SearchResultExt :=
  if (prio (IndexName curr) <? prio (IndexName prev))%nat then curr
  else if (prio (IndexName prev) <? prio (IndexName curr))%nat then prev
  else if StarCount prev <? StarCount curr then curr
  else prev.

(** The scan: [kept] stands for the entries met since the last one that
    did not collide. *)
Fixpoint collapse (kept : SearchResultExt) (data : list SearchResultExt)
    : list SearchResultExt :=
  match data with
  | [] => [kept]
  | curr :: data' =>
      if collide kept curr then collapse (keep kept curr) data'
      else kept :: collapse curr data'
  end.

Definition dedup (data : list SearchResultExt) : list SearchResultExt :=
  match data with
  | [] => []
  | data0 :: data' => collapse data0 data'
  end.

End dedup.

(** *** What the service calls and does not define

    The configuration of the daemon and the network stand behind these
    functions, which other files of the package and its libraries
    define. *)
Class Collaborators := {
  (* [*http.Client] and [*V1Endpoint] *)
  Client : Type;
  V1Endpoint : Type;
  IndexServerName : string;
  IndexServerAddress : string;
  QueryRegistries : list string;
  validateNoScheme : string -> option error;
  (* [newIndexInfo(s.config, indexName)] *)
  newIndexInfo : string -> result error IndexInfo;
  NewV1Endpoint :
    IndexInfo -> string -> list (string * list string) -> result error V1Endpoint;
  (* [endpoint.client] *)
  endpoint_client : V1Endpoint -> Client;
  (* [v2AuthHTTPClient] for the scope of a catalog search: its error, or
      the client when it found a V2 registry *)
  v2AuthHTTPClient :
    V1Endpoint -> types.AuthConfig -> string -> result error (option Client);
  authorizeClient : Client -> option types.AuthConfig -> V1Endpoint -> option error;
  (* [newSession(client, authConfig, endpoint).SearchRepositories(name, limit)] *)
  SearchRepositories :
    Client -> option types.AuthConfig -> V1Endpoint -> string -> Z ->
    result error SearchResults;
  loginV1 : types.AuthConfig -> APIEndpoint -> string -> result error (string * string);
  loginV2 : types.AuthConfig -> APIEndpoint -> string -> result error (string * string);
  (* [u.Host] of [url.Parse(serverAddress)] *)
  url_Parse : string -> result error string;
  (* [s.config.V2Only] and [s.config.Mirrors] *)
  V2Only : bool;
  config_Mirrors : list string;
  isSecureIndex : string -> bool;
  isOfficial : string -> bool;
  allowNondistributableArtifacts : string -> bool;
  newTLSConfig : string -> bool -> result error tlsConfig;
}.

(** What a run does that its result does not show: the logins and the
    search tasks that were started, and the lines that were logged. *)
Inductive event : Type :=
  | Login (version : APIVersion) (endpoint : APIEndpoint)
  | LogInfo (version : APIVersion) (err : error)
  | SearchTask (term : string)
  | LogError (err : error).

(** [errdefs.InvalidParameter] *)
Definition InvalidParameter (err : error) : error := errInvalidParameter err.

(** [err.Error()] *)
Fixpoint Error (err : error) : string :=
  match err with
  | errorString msg => msg
  | fallbackError err' => Error err'
  | errInvalidParameter err' => Error err'
  end.

Section service.

Context `{Collaborators}.

(** **** Endpoints *)

(** [tlsConfig] *)
Definition service_tlsConfig (hostname : string) : result error tlsConfig :=
  newTLSConfig hostname (isSecureIndex hostname).

(** [tlsConfigForMirror]; a mirror is given by its host. *)
Definition tlsConfigForMirror (mirrorURL : string) : result error tlsConfig :=
  service_tlsConfig mirrorURL.

Fixpoint mirrorEndpoints (mirrors : list string) : result error (list APIEndpoint) :=
  match mirrors with
  | [] => Ok []
  | mirror :: mirrors' =>
      match tlsConfigForMirror mirror with
      | Err err => Err err
      | Ok tls =>
          match mirrorEndpoints mirrors' with
          | Err err => Err err
          | Ok endpoints =>
              Ok ({| Mirror := true; URL := "https://" +:+ mirror;
                     Version := APIVersion2;
                     AllowNondistributableArtifacts := false;
                     Official := false; TrimHostname := true;
                     TLSConfig := tls |} :: endpoints)
          end
      end
  end.

(** Modelled from the spec: [lookupV2Endpoints] is defined outside the
    files at hand.  The spec has the lookup classify the host, put "one
    V2 mirror endpoint per configured mirror" first and then "one V2
    endpoint for hostname itself", each with the TLS policy of its host,
    and fail only when the host is refused. *)
Definition lookupV2Endpoints (hostname : string) : result error (list APIEndpoint) :=
  match service_tlsConfig hostname with
  | Err err => Err err
  | Ok tls =>
      match mirrorEndpoints config_Mirrors with
      | Err err => Err err
      | Ok mirrors =>
          Ok (mirrors ++
              [ {| Mirror := false; URL := "https://" +:+ hostname;
                   Version := APIVersion2;
                   AllowNondistributableArtifacts :=
                     allowNondistributableArtifacts hostname;
                   Official := isOfficial hostname; TrimHostname := true;
                   TLSConfig := tls |} ])
      end
  end.

(** Modelled from the spec: [lookupV1Endpoints] is defined outside the
    files at hand.  The spec has the legacy V1 endpoints be "one per
    scheme preference: HTTPS then HTTP, only trying HTTP if the host is
    classified insecure". *)
Definition lookupV1Endpoints (hostname : string) : result error (list APIEndpoint) :=
  match service_tlsConfig hostname with
  | Err err => Err err
  | Ok tls =>
      let v1 scheme :=
        {| Mirror := false; URL := scheme +:+ hostname;
           Version := APIVersion1;
           AllowNondistributableArtifacts := false;
           Official := isOfficial hostname; TrimHostname := true;
           TLSConfig := tls |} in
      Ok (v1 "https://" ::
          (if isSecureIndex hostname then [] else [v1 "http://"]))
  end.

(** [lookupEndpoints] *)
Definition lookupEndpoints (hostname : string) : result error (list APIEndpoint) :=
  match lookupV2Endpoints hostname with
  | Err err => Err err
  | Ok endpoints =>
      if V2Only then Ok endpoints
      else
        match lookupV1Endpoints hostname with
        | Err err => Err err
        | Ok legacyEndpoints => Ok (endpoints ++ legacyEndpoints)
        end
  end.

(** [LookupPullEndpoints] *)
Definition LookupPullEndpoints (hostname : string) : result error (list APIEndpoint) :=
  lookupEndpoints hostname.

(** The loop of [LookupPushEndpoints] over [allEndpoints] *)
Fixpoint LookupPushEndpoints_range (allEndpoints endpoints : list APIEndpoint)
    : list APIEndpoint :=
  match allEndpoints with
  | [] => endpoints
  | endpoint :: rest =>
      if negb (Mirror endpoint)
      then LookupPushEndpoints_range rest (endpoints ++ [endpoint])
      else LookupPushEndpoints_range rest endpoints
  end.

(** [LookupPushEndpoints] *)
Definition LookupPushEndpoints (hostname : string) : result error (list APIEndpoint) :=
  match lookupEndpoints hostname with
  | Err err => Err err
  | Ok allEndpoints => Ok (LookupPushEndpoints_range allEndpoints [])
  end.

(** Every endpoint of version V2 stands before every endpoint of
    version V1. *)
Definition v2_before_v1 (endpoints : list APIEndpoint) : Prop :=
  forall i j x y,
    endpoints !! i = Some x -> endpoints !! j = Some y ->
    Version x = APIVersion2 -> Version y = APIVersion1 -> (i < j)%nat.

(** **** Login *)

(** What [Auth] returns: [status], [token] and [err]. *)
Definition auth_result : Type := string * string * option error.

(** The loop of [Auth] over the endpoints; [err] is the variable of that
    name, and [trace] what has been done so far. *)
Fixpoint Auth_range (authConfig : types.AuthConfig) (userAgent : string)
    (endpoints : list APIEndpoint) (err : option error) (trace : list event)
    : list event * auth_result :=
  match endpoints with
  | [] => (trace, ("", "", err))
  | endpoint :: rest =>
      let login :=
        match Version endpoint with
        | APIVersion1 => loginV1
        | _ => loginV2
        end in
      let trace := trace ++ [Login (Version endpoint) endpoint] in
      match login authConfig endpoint userAgent with
      | Ok (status, token) => (trace, (status, token, None))
      | Err (fallbackError fErr_err) =>
          Auth_range authConfig userAgent rest (Some fErr_err)
            (trace ++ [LogInfo (Version endpoint) fErr_err])
      | Err err' => (trace, ("", "", Some err'))
      end
  end.

(** The login that the loop makes at one endpoint. *)
Definition attempt (authConfig : types.AuthConfig) (userAgent : string)
    (endpoint : APIEndpoint) : result error (string * string) :=
  match Version endpoint with
  | APIVersion1 => loginV1 authConfig endpoint userAgent
  | APIVersion2 => loginV2 authConfig endpoint userAgent
  end.

(** The error inside the [fallbackError] of a login, if it ends so. *)
Definition fallback_of (r : result error (string * string)) : option error :=
  match r with
  | Err (fallbackError fErr_err) => Some fErr_err
  | _ => None
  end.

(** The endpoints at which a login was made, in the order of the
    logins, and the errors that were logged. *)
Definition logins (trace : list event) : list APIEndpoint :=
  omap (fun ev => match ev with Login _ e => Some e | _ => None end) trace.

Definition logged (trace : list event) : list error :=
  omap (fun ev => match ev with LogInfo _ err => Some err | _ => None end) trace.

(** [Auth] *)
Definition Auth (authConfig : types.AuthConfig) (userAgent : string)
    : list event * auth_result :=
  let serverAddress := types.ServerAddress authConfig in
  let serverAddress :=
    if String.eqb serverAddress "" then IndexServerAddress else serverAddress in
  if String.eqb serverAddress "" then
    ([], ("", "", Some (errorString "No configured registry to authenticate to.")))
  else
    let serverAddress :=
      if negb (HasPrefix serverAddress "https://") &&
         negb (HasPrefix serverAddress "http://")
      then "https://" +:+ serverAddress else serverAddress in
    match url_Parse serverAddress with
    | Err err =>
        ([], ("", "", Some (InvalidParameter
           (errorString ("unable to parse server address: " +:+ Error err)))))
    | Ok u_Host =>
        match LookupPushEndpoints u_Host with
        | Err err => ([], ("", "", Some (InvalidParameter err)))
        | Ok endpoints => Auth_range authConfig userAgent endpoints None []
        end
    end.

(** **** Search *)

(** The choice of the HTTP client in [searchTerm]. *)
Definition searchTerm_client (authConfig : option types.AuthConfig)
    (userAgent : string) (endpoint : V1Endpoint) : result error Client :=
  let v2 : result error (option Client) :=
    match authConfig with
    | Some ac =>
        if negb (String.eqb (types.IdentityToken ac) "") &&
           negb (String.eqb (types.Username ac) "")
        then
          match v2AuthHTTPClient endpoint ac userAgent with
          | Err (fallbackError _) => Ok None
          | Err err => Err err
          | Ok foundV2 => Ok foundV2
          end
        else Ok None
    | None => Ok None
    end in
  match v2 with
  | Err err => Err err
  | Ok (Some client) => Ok client
  | Ok None =>
      let client := endpoint_client endpoint in
      match authorizeClient client authConfig endpoint with
      | Some err => Err err
      | None => Ok client
      end
  end.

(** [searchTerm] up to the answer of the provider: the index that was
    asked and what [SearchRepositories] returned, or the error with which
    [searchTerm] returns before it has an answer. *)
Definition searchTerm_request (term : string) (limit : Z)
    (authConfig : option types.AuthConfig) (userAgent : string)
    (headers : list (string * list string))
    : result error (IndexInfo * result error SearchResults) :=
  match validateNoScheme term with
  | Some err => Err err
  | None =>
      let '(indexName, remoteName) :=
        splitReposSearchTerm IndexServerName term true in
      match newIndexInfo indexName with
      | Err err => Err err
      | Ok index =>
          match NewV1Endpoint index userAgent headers with
          | Err err => Err err
          | Ok endpoint =>
              match searchTerm_client authConfig userAgent endpoint with
              | Err err => Err err
              | Ok client =>
                  let r := SearchRepositories client authConfig endpoint in
                  if registrytypes.Official index then
                    let localName :=
                      if HasPrefix remoteName "library/"
                      then default "" (SplitN2 remoteName "/" !! 1%nat)
                      else remoteName in
                    Ok (index, r localName limit)
                  else Ok (index, r remoteName limit)
              end
          end
      end
  end.

(** The entry that [searchTerm] makes of one result of the provider. *)
Definition searchTerm_item (index : IndexInfo) (result : SearchResult.t)
    : SearchResultExt :=
  let '(newRegistryName, newName) :=
    splitReposSearchTerm IndexServerName (SearchResult.Name result) false in
  let qualified := negb (String.eqb newRegistryName "") in
  {| IndexName := IndexInfo_Name index;
     RegistryName := if qualified then newRegistryName else IndexInfo_Name index;
     StarCount := SearchResult.StarCount result;
     Name := if qualified then newName else SearchResult.Name result;
     IsOfficial := SearchResult.IsOfficial result;
     IsAutomated := SearchResult.IsAutomated result;
     Description := SearchResult.Description result |}.

(** [searchTerm]: its error, and the slice behind [outs] when it
    returns. *)
Definition searchTerm (term : string) (limit : Z)
    (authConfig : option types.AuthConfig) (userAgent : string)
    (headers : list (string * list string)) (outs : list SearchResultExt)
    : option error * list SearchResultExt :=
  match searchTerm_request term limit authConfig userAgent headers with
  | Err err => (Some err, outs)
  | Ok (_, Err err) => (Some err, outs)
  | Ok (index, Ok results) =>
      if NumResults results <? 1 then (None, outs)
      else (None, outs ++ map (searchTerm_item index) (Results results))
  end.

(** The error of the task that searches [term]. *)
Definition task_error (term : string) (limit : Z)
    (authConfig : option types.AuthConfig) (userAgent : string)
    (headers : list (string * list string)) : option error :=
  (searchTerm term limit authConfig userAgent headers []).1.

(** The terms of the search tasks that were run, in their order. *)
Definition tasks (trace : list event) : list string :=
  omap (fun ev => match ev with SearchTask t => Some t | _ => None end) trace.

(** The state of [Search] while it waits for its tasks. *)
Record join := {
  results : list SearchResultExt;
  err : option error;
  successfulSearch : bool;
  trace : list event;
}.

(** [searchRoutine] run to its end, and its error received from
    [resultChan]. *)
Definition searchRoutine (limit : Z) (authConfig : option types.AuthConfig)
    (userAgent : string) (headers : list (string * list string))
    (st : join) (term : string) : join :=
  let '(e, outs) :=
    searchTerm term limit authConfig userAgent headers (results st) in
  {| results := outs;
     err := e;
     successfulSearch :=
       match e with None => true | Some _ => successfulSearch st end;
     trace :=
       trace st ++ SearchTask term ::
         match e with Some e' => [LogError e'] | None => [] end |}.

(** The terms of the tasks that [Search] starts, one for each registry
    of [QueryRegistries()]. *)
Definition Search_tasks (term : string) : list string :=
  imap (fun i r => if (i =? 0)%nat then term else r +:+ "/" +:+ term)
    QueryRegistries.

(** The end of [Search]: [results] is sorted, and freed of duplicates
    when [noIndex] is set. *)
Definition Search_rank (noIndex : bool) (results : list SearchResultExt)
    : option (list SearchResultExt) :=
  let cmpFunc := getSearchResultsCmpFunc (negb noIndex) in
  let results := Sort cmpFunc results in
  if noIndex then removeSearchDuplicates QueryRegistries results
  else Some results.

(** [Search].  The tasks run side by side in the code; [order] lists
    their terms in the order in which they run to their end, each one at
    a stretch, and is a rearrangement of [Search_tasks term].  [None] is
    a panic. *)
Definition Search (order : list string) (term : string) (limit : Z)
    (authConfig : option types.AuthConfig) (userAgent : string)
    (headers : list (string * list string)) (noIndex : bool)
    : option (list event * result error (list SearchResultExt)) :=
  let start :=
    {| results := []; err := None; successfulSearch := false; trace := [] |} in
  let finish (trace : list event) (results : list SearchResultExt) :=
    match Search_rank noIndex results with
    | Some results => Some (trace, Ok results)
    | None => None
    end in
  if isReposSearchTermFullyQualified term then
    match searchTerm term limit authConfig userAgent headers [] with
    | (Some e, _) => Some ([SearchTask term], Err e)
    | (None, results) => finish [SearchTask term] results
    end
  else if (length QueryRegistries <? 1)%nat then
    Some ([], Err (errorString "No configured repository to search."))
  else
    let st :=
      foldl (searchRoutine limit authConfig userAgent headers) start order in
    if negb (successfulSearch st) then
      match err st with
      | Some e => Some (trace st, Err e)
      | None => Some (trace st, Ok [])
      end
    else finish (trace st) (results st).

(** What the task that searches [term] adds to the results. *)
Definition task_items (term : string) (limit : Z)
    (authConfig : option types.AuthConfig) (userAgent : string)
    (headers : list (string * list string)) : list SearchResultExt :=
  (searchTerm term limit authConfig userAgent headers []).2.

End service.

(** *** The sort keys of a result

    The keys that the ranking compares, and their order in the words of the
    comparator: with the index, the index name comes first; without it, it
    has no part, and an empty string stands in its place. *)
Definition sort_key (noIndex : bool) (r : SearchResultExt)
    : string * (string * Z * string * string) :=
  (if noIndex then "" else IndexName r, key_noIndex r).

Definition key_compare (noIndex : bool)
    (k1 k2 : string * (string * Z * string * string)) : comparison :=
  let '(index1, (registry1, stars1, name1, description1)) := k1 in
  let '(index2, (registry2, stars2, name2, description2)) := k2 in
  if noIndex then
    then_by (asc registry1 registry2)
      (then_by (desc stars1 stars2)
         (then_by (asc name1 name2)
            (then_by (asc description1 description2) (asc index1 index2))))
  else
    then_by (asc index1 index2)
      (then_by (desc stars1 stars2)
         (then_by (asc registry1 registry2)
            (then_by (asc name1 name2) (asc description1 description2)))).

End registry.

(** *** [searchResultSorter], the [sort.Interface] of the results *)

Module sorter.

Import registrytypes.

Record searchResultSorter := {
  Results : list SearchResultExt;
  By : SearchResultExt -> SearchResultExt -> bool;
}.

(** [Len] *)
Definition Len (s : searchResultSorter) : nat := length (Results s).

(** [Swap]; [None] is the panic of an index out of range. *)
Definition Swap (s : searchResultSorter) (i j : nat) : option searchResultSorter :=
  match Results s !! i, Results s !! j with
  | Some ri, Some rj =>
      Some {| Results := <[j := ri]> (<[i := rj]> (Results s)); By := By s |}
  | _, _ => None
  end.

(** [Less]; [None] is the panic of an index out of range. *)
Definition Less (s : searchResultSorter) (i j : nat) : option bool :=
  match Results s !! i, Results s !! j with
  | Some ri, Some rj => Some (By s ri rj)
  | _, _ => None
  end.

End sorter.

(** ** Concrete inputs *)

Module examples.

Import registrytypes registry.

Definition entry (idx reg name : string) (stars : Z) : SearchResultExt :=
  {| IndexName := idx; RegistryName := reg; StarCount := stars; Name := name;
     IsOfficial := false; IsAutomated := false; Description := "" |}.

(** Two results of the indexes ["b"] and ["a"], with 1 and 5 stars. *)
Definition b1 : SearchResultExt := entry "b" "b" "x" 1.
Definition a5 : SearchResultExt := entry "a" "a" "x" 5.

(** The repository ["r"]/["x"], found with 3 stars in the index ["p0"] and
    with 9 stars in the index ["p1"]. *)
Definition p0_3 : SearchResultExt := entry "p0" "r" "x" 3.
Definition p1_9 : SearchResultExt := entry "p1" "r" "x" 9.

(** The repository ["r"]/["x"] found twice, with 5 and with 3 stars, and the
    repository ["r"]/["y"] with 4 stars. *)
Definition x5 : SearchResultExt := entry "p0" "r" "x" 5.
Definition y4 : SearchResultExt := entry "p0" "r" "y" 4.
Definition x3 : SearchResultExt := entry "p1" "r" "x" 3.

(** The digest of the empty string: 64 hexadecimal digits in lower case. *)
Definition hex64 : string :=
  "e3b0c44298fc1c149afbf4c8996fb92427ae41e4649b934ca495991b7852b855".

(** A daemon that asks the indexes ["p0"] and ["p1"] in this order.  Both
    know the repository ["r/x"], the mirror and every other index are out of
    reach, and a registry speaks the V1 protocol only. *)
Definition answer (index : string) : result error SearchResults :=
  let found stars :=
    {| Query := "x"; NumResults := 1;
       Results := [ {| SearchResult.StarCount := stars;
                       SearchResult.IsOfficial := false;
                       SearchResult.Name := "r/x";
                       SearchResult.IsAutomated := false;
                       SearchResult.Description := "" |} ] |} in
  if String.eqb index "p0" || String.eqb index "a.example.com" then Ok (found 3)
  else if String.eqb index "p1" || String.eqb index "b.example.com"
  then Ok (found 9)
  else if String.eqb index "empty.example.com"
  then Ok {| Query := "x"; NumResults := 0; Results := [] |}
  else Err (errorString "connection refused").

#[export] Instance daemon : Collaborators := {|
  Client := unit;
  V1Endpoint := string;
  IndexServerName := "p0";
  IndexServerAddress := "https://p0/v1/";
  QueryRegistries := ["p0"; "p1"];
  validateNoScheme := fun term =>
    if strings.Contains term "://"
    then Some (errorString "invalid repository name: should not have a scheme")
    else None;
  newIndexInfo := fun indexName =>
    Ok {| IndexInfo_Name := indexName; Mirrors := []; Secure := true;
          registrytypes.Official := String.eqb indexName "p0" |};
  NewV1Endpoint := fun index _ _ => Ok (IndexInfo_Name index);
  endpoint_client := fun _ => tt;
  v2AuthHTTPClient := fun _ _ _ =>
    Err (fallbackError (errorString "v2 auth not supported"));
  authorizeClient := fun _ _ _ => None;
  SearchRepositories := fun _ _ endpoint _ _ => answer endpoint;
  loginV1 := fun _ _ _ => Ok ("Login Succeeded", "");
  loginV2 := fun _ _ _ =>
    Err (fallbackError (errorString "registry does not support v2 API"));
  url_Parse := fun serverAddress =>
    if strings.HasPrefix serverAddress "https://"
    then Ok (strings.drop 8 serverAddress)
    else Ok (strings.drop 7 serverAddress);
  V2Only := false;
  config_Mirrors := ["mirror.example.com"];
  isSecureIndex := fun _ => true;
  isOfficial := fun hostname => String.eqb hostname "p0";
  allowNondistributableArtifacts := fun _ => false;
  newTLSConfig := fun _ secure => Ok (TLS (negb secure));
|}.

(** A daemon that asks three registries, the last of which is down. *)
#[export] Instance federation : Collaborators := {|
  Client := unit;
  V1Endpoint := string;
  IndexServerName := "a.example.com";
  IndexServerAddress := "https://a.example.com/v1/";
  QueryRegistries := ["a.example.com"; "b.example.com"; "down.example.com"];
  validateNoScheme := fun term =>
    if strings.Contains term "://"
    then Some (errorString "invalid repository name: should not have a scheme")
    else None;
  newIndexInfo := fun indexName =>
    Ok {| IndexInfo_Name := indexName; Mirrors := []; Secure := true;
          registrytypes.Official := String.eqb indexName "a.example.com" |};
  NewV1Endpoint := fun index _ _ => Ok (IndexInfo_Name index);
  endpoint_client := fun _ => tt;
  v2AuthHTTPClient := fun _ _ _ =>
    Err (fallbackError (errorString "v2 auth not supported"));
  authorizeClient := fun _ _ _ => None;
  SearchRepositories := fun _ _ endpoint _ _ => answer endpoint;
  loginV1 := fun _ _ _ => Ok ("Login Succeeded", "");
  loginV2 := fun _ _ _ => Ok ("Login Succeeded", "");
  url_Parse := fun serverAddress =>
    if strings.HasPrefix serverAddress "https://"
    then Ok (strings.drop 8 serverAddress)
    else Ok (strings.drop 7 serverAddress);
  V2Only := true;
  config_Mirrors := [];
  isSecureIndex := fun _ => true;
  isOfficial := fun hostname => String.eqb hostname "a.example.com";
  allowNondistributableArtifacts := fun _ => false;
  newTLSConfig := fun _ secure => Ok (TLS (negb secure));
|}.

(** An account, and the two endpoints to which the daemon of the examples
    pushes: the login of V2 ends in a [fallbackError], the one of V1
    succeeds. *)
Definition account : types.AuthConfig :=
  {| types.Username := "yuyang"; types.Password := "secret";
     types.ServerAddress := "p0"; types.IdentityToken := "" |}.

Definition v2_p0 : APIEndpoint :=
  {| Mirror := false; URL := "https://p0"; Version := APIVersion2;
     AllowNondistributableArtifacts := false; Official := true;
     TrimHostname := true; TLSConfig := TLS false |}.

Definition v1_p0 : APIEndpoint :=
  {| Mirror := false; URL := "https://p0"; Version := APIVersion1;
     AllowNondistributableArtifacts := false; Official := true;
     TrimHostname := true; TLSConfig := TLS false |}.

End examples.

(** * Properties *)

(** ** Go's strings *)

Module strings_facts.

Import strings.

Lemma append_nil_r s : s +:+ "" = s.
Proof. induction s as [|a s IH]; simpl; [reflexivity|now rewrite IH]. Qed.

Lemma append_assoc s t u : (s +:+ t) +:+ u = s +:+ t +:+ u.
Proof. induction s as [|a s IH]; simpl; [reflexivity|now rewrite IH]. Qed.

Lemma take_drop n s : take n s +:+ drop n s = s.
Proof.
  revert s. induction n as [|n IH]; intros [|a s]; simpl; try reflexivity.
  now rewrite IH.
Qed.

Lemma take_append s t : take (String.length s) (s +:+ t) = s.
Proof. induction s as [|a s IH]; simpl; [now destruct t|now rewrite IH]. Qed.

Lemma drop_append s t n : drop (String.length s + n) (s +:+ t) = drop n t.
Proof. induction s as [|a s IH]; simpl; [reflexivity|exact IH]. Qed.

Lemma HasPrefix_append s p : HasPrefix (p +:+ s) p = true.
Proof.
  induction p as [|b p IH]; simpl; [reflexivity|].
  now rewrite Ascii.eqb_refl, IH.
Qed.

Lemma HasPrefix_spec s p : HasPrefix s p = true <-> exists t, s = p +:+ t.
Proof.
  split.
  - revert s. induction p as [|b p IH]; intros s; simpl.
    + intros _. now exists s.
    + destruct s as [|a s]; [discriminate|].
      rewrite andb_true_iff, Ascii.eqb_eq. intros [-> Hp].
      destruct (IH s Hp) as [t ->]. now exists t.
  - intros [t ->]. apply HasPrefix_append.
Qed.

(** The index of a string of one byte is the index of that byte. *)
Lemma Index_char s c : Index s (String c "") = IndexRune s c.
Proof.
  induction s as [|a s IH]; simpl; [reflexivity|].
  rewrite andb_true_r. destruct (Ascii.eqb a c); [reflexivity|].
  now rewrite IH.
Qed.

Lemma Contains_char s c : Contains s (String c "") = ContainsRune s c.
Proof. unfold Contains, ContainsRune. now rewrite Index_char. Qed.

(** [IndexRune] finds the first place of the byte. *)
Lemma IndexRune_Some s c i :
  IndexRune s c = Some i ->
  s = take i s +:+ String c (drop (S i) s) /\ IndexRune (take i s) c = None.
Proof.
  revert i. induction s as [|a s IH]; intros i; simpl; [discriminate|].
  destruct (Ascii.eqb_spec a c) as [->|Hne].
  - intros [= <-]. now destruct s.
  - destruct (IndexRune s c) as [k|] eqn:Hk; [|discriminate].
    intros [= <-]. destruct (IH k eq_refl) as [Hs Hnone].
    change (take (S k) (String a s)) with (String a (take k s)).
    change (drop (S (S k)) (String a s)) with (drop (S k) s).
    split.
    + cbn [String.append]. now rewrite <- Hs.
    + cbn [IndexRune]. rewrite Hnone.
      destruct (Ascii.eqb_spec a c); [contradiction|reflexivity].
Qed.

Lemma IndexRune_append s c t :
  IndexRune s c = None -> IndexRune (s +:+ String c t) c = Some (String.length s).
Proof.
  induction s as [|a s IH]; simpl.
  - now rewrite Ascii.eqb_refl.
  - destruct (Ascii.eqb a c); [discriminate|].
    destruct (IndexRune s c); [discriminate|]. intros _. now rewrite IH.
Qed.

Lemma IndexRune_append_None s c t :
  IndexRune (s +:+ t) c = None <-> IndexRune s c = None /\ IndexRune t c = None.
Proof.
  induction s as [|a s IH]; simpl; [tauto|].
  destruct (Ascii.eqb a c).
  - split; [discriminate|]. intros [? _]. discriminate.
  - destruct (IndexRune (s +:+ t) c) as [k|].
    + split; [discriminate|]. intros [Hs Ht].
      destruct (IndexRune s c); [discriminate|].
      destruct IH as [_ IH]. now specialize (IH (conj eq_refl Ht)).
    + destruct IH as [IH _]. destruct (IH eq_refl) as [-> ->]. tauto.
Qed.

Lemma IndexRune_lt s c i : IndexRune s c = Some i -> (i < String.length s)%nat.
Proof.
  revert i. induction s as [|a s IH]; intros i; simpl; [discriminate|].
  destruct (Ascii.eqb a c); [intros [= <-]; lia|].
  destruct (IndexRune s c) as [k|]; [|discriminate].
  intros [= <-]. specialize (IH k eq_refl). lia.
Qed.

(** A string is in lower case when it has no upper-case letter. *)
Lemma lower_fix a : lower a = a <-> is_upper a = false.
Proof.
  unfold lower. destruct (is_upper a) eqn:Hu; [|tauto].
  split; [|discriminate]. intros Heq. exfalso.
  unfold is_upper in Hu. apply andb_true_iff in Hu as [H1 H2].
  apply Nat.leb_le in H1, H2.
  apply (f_equal nat_of_ascii) in Heq.
  rewrite nat_ascii_embedding in Heq by lia. lia.
Qed.

Lemma ToLower_fix s : ToLower s = s <-> has_upper s = false.
Proof.
  induction s as [|a s IH]; simpl; [tauto|].
  rewrite orb_false_iff, <- IH, <- lower_fix. split.
  - now intros [= -> ->].
  - now intros [-> ->].
Qed.

Lemma ToLower_eqb s : String.eqb (ToLower s) s = negb (has_upper s).
Proof.
  destruct (has_upper s) eqn:Hu; simpl.
  - apply String.eqb_neq. intros Heq. apply ToLower_fix in Heq. congruence.
  - apply String.eqb_eq. now apply ToLower_fix.
Qed.

Lemma has_upper_append s t : has_upper (s +:+ t) = has_upper s || has_upper t.
Proof.
  induction s as [|a s IH]; simpl; [reflexivity|].
  now rewrite IH, orb_assoc.
Qed.

Lemma has_upper_take n s : has_upper s = false -> has_upper (take n s) = false.
Proof.
  intros Hs. rewrite <- (take_drop n s), has_upper_append in Hs.
  now apply orb_false_iff in Hs.
Qed.

End strings_facts.

(** ** Orders given by a comparison *)

Module orders.

Import registry.

Lemma ascii_compare_refl a : Ascii.compare a a = Eq.
Proof. unfold Ascii.compare. apply N.compare_refl. Qed.

Lemma ascii_compare_trans a b c :
  Ascii.compare a b = Lt -> Ascii.compare b c = Lt -> Ascii.compare a c = Lt.
Proof.
  unfold Ascii.compare. rewrite !N.compare_lt_iff. apply N.lt_trans.
Qed.

Lemma string_compare_refl s : String.compare s s = Eq.
Proof.
  induction s as [|a s IH]; simpl; [reflexivity|].
  now rewrite ascii_compare_refl.
Qed.

Lemma string_compare_Eq s t : String.compare s t = Eq <-> s = t.
Proof.
  split; [apply String.compare_eq_iff|intros ->; apply string_compare_refl].
Qed.

Lemma string_compare_trans s t u :
  String.compare s t = Lt -> String.compare t u = Lt -> String.compare s u = Lt.
Proof.
  revert t u. induction s as [|a s IH]; intros [|b t] [|c u]; simpl;
    try discriminate; try reflexivity.
  destruct (Ascii.compare a b) eqn:Hab; try discriminate;
    destruct (Ascii.compare b c) eqn:Hbc; try discriminate; intros H1 H2.
  - apply Ascii.compare_eq_iff in Hab, Hbc. subst.
    rewrite ascii_compare_refl. eauto.
  - apply Ascii.compare_eq_iff in Hab. subst. now rewrite Hbc.
  - apply Ascii.compare_eq_iff in Hbc. subst. now rewrite Hab.
  - now rewrite (ascii_compare_trans a b c).
Qed.

Lemma string_eqb_compare s t :
  String.eqb s t = match String.compare s t with Eq => true | _ => false end.
Proof.
  destruct (String.eqb_spec s t) as [->|Hne].
  - now rewrite string_compare_refl.
  - destruct (String.compare s t) eqn:E; try reflexivity.
    now apply String.compare_eq_iff in E.
Qed.

#[export] Instance asc_order {A} (f : A -> string) :
  KeyOrder (fun a b => asc (f a) (f b)).
Proof.
  split; unfold asc.
  - intros a b. apply String.compare_antisym.
  - intros a b c. apply string_compare_trans.
  - intros a b c Hab. apply String.compare_eq_iff in Hab. now rewrite Hab.
Qed.

#[export] Instance desc_order {A} (f : A -> Z) :
  KeyOrder (fun a b => desc (f a) (f b)).
Proof.
  split; unfold desc.
  - intros a b. apply Z.compare_antisym.
  - intros a b c. rewrite !Z.compare_lt_iff. lia.
  - intros a b c Hab. apply Z.compare_eq_iff in Hab. now rewrite Hab.
Qed.

Lemma ko_eq_r {A} (cmp : A -> A -> comparison) `{!KeyOrder cmp} a b c :
  cmp b c = Eq -> cmp a b = cmp a c.
Proof.
  intros Hbc. rewrite (ko_antisym b a), (ko_antisym c a).
  now rewrite (ko_eq b c a Hbc).
Qed.

#[export] Instance then_by_order {A} (c1 c2 : A -> A -> comparison) :
  KeyOrder c1 -> KeyOrder c2 -> KeyOrder (fun a b => then_by (c1 a b) (c2 a b)).
Proof.
  intros K1 K2. split.
  - intros a b. rewrite (ko_antisym (cmp:=c1) a b), (ko_antisym (cmp:=c2) a b).
    now destruct (c1 a b).
  - intros a b c. unfold then_by.
    destruct (c1 a b) eqn:Hab; try discriminate;
      destruct (c1 b c) eqn:Hbc; try discriminate; intros H1 H2.
    + rewrite (ko_eq a b c Hab), Hbc. now apply (ko_trans (cmp:=c2) a b c).
    + now rewrite (ko_eq a b c Hab), Hbc.
    + now rewrite <- (ko_eq_r c1 a b c Hbc), Hab.
    + now rewrite (ko_trans a b c Hab Hbc).
  - intros a b c. unfold then_by. destruct (c1 a b) eqn:Hab; try discriminate.
    intros H2. now rewrite (ko_eq a b c Hab), (ko_eq (cmp:=c2) a b c H2).
Qed.

#[export] Instance ranking_order noIndex : KeyOrder (ranking noIndex).
Proof. unfold ranking. destruct noIndex; apply _. Qed.

(** The function [less] of the code says [Lt] of the ranking. *)
Lemma less_ranking noIndex a b :
  getSearchResultsCmpFunc (negb noIndex) a b =
  match ranking noIndex a b with Lt => true | _ => false end.
Proof.
  unfold getSearchResultsCmpFunc, ranking, asc, desc, String.ltb, Z.gtb.
  rewrite !string_eqb_compare, !Z.eqb_compare, (Z.compare_antisym (_ a) (_ b)).
  destruct noIndex; simpl;
    repeat match goal with
    | |- context [String.compare ?x ?y] => destruct (String.compare x y); simpl
    | |- context [Z.compare ?x ?y] => destruct (Z.compare x y); simpl
    end; reflexivity.
Qed.

Lemma less_asym noIndex a b :
  getSearchResultsCmpFunc (negb noIndex) a b = true ->
  getSearchResultsCmpFunc (negb noIndex) b a = false.
Proof.
  rewrite !less_ranking, (ko_antisym (cmp:=ranking noIndex) a b).
  now destruct (ranking noIndex a b).
Qed.

Lemma less_trans noIndex a b c :
  getSearchResultsCmpFunc (negb noIndex) a b = true ->
  getSearchResultsCmpFunc (negb noIndex) b c = true ->
  getSearchResultsCmpFunc (negb noIndex) a c = true.
Proof.
  rewrite !less_ranking.
  destruct (ranking noIndex a b) eqn:Hab; try discriminate.
  destruct (ranking noIndex b c) eqn:Hbc; try discriminate.
  now rewrite (ko_trans a b c Hab Hbc).
Qed.

End orders.

(** ** The ranking of search results *)

Module ranking.

Import registrytypes registry orders.

Section sort.

Context {A : Type} (less : A -> A -> bool).
Hypothesis less_asym : forall a b, less a b = true -> less b a = false.
Hypothesis less_trans :
  forall a b c, less a b = true -> less b c = true -> less a c = true.

Abbreviation ordered := (in_order less).

Lemma Sort_insert_perm x l : Permutation (x :: l) (Sort_insert less x l).
Proof.
  induction l as [|y l IH]; simpl; [reflexivity|].
  destruct (less x y); [reflexivity|].
  rewrite <- IH. apply perm_swap.
Qed.

Lemma Sort_perm l : Permutation l (Sort less l).
Proof.
  induction l as [|x l IH]; simpl; [reflexivity|].
  rewrite <- Sort_insert_perm. now constructor.
Qed.

Lemma Sort_insert_sorted x l :
  StronglySorted ordered l -> StronglySorted ordered (Sort_insert less x l).
Proof.
  induction 1 as [|y l Hl IH Hy]; simpl.
  - repeat constructor.
  - destruct (less x y) eqn:Hxy.
    + constructor; [now constructor|].
      constructor; [now apply less_asym|].
      eapply Forall_impl; [exact Hy|]. intros z Hz. unfold ordered in *.
      destruct (less z x) eqn:Hzx; [|reflexivity].
      now rewrite (less_trans z x y Hzx Hxy) in Hz.
    + constructor; [exact IH|].
      rewrite <- (Sort_insert_perm x l). now constructor.
Qed.

Lemma Sort_sorted l : StronglySorted ordered (Sort less l).
Proof.
  induction l as [|x l IH]; simpl; [constructor|].
  now apply Sort_insert_sorted.
Qed.

Lemma StronglySorted_sorted_by l : StronglySorted ordered l -> sorted_by less l.
Proof.
  induction 1 as [|z l Hl IH Hz]; intros i j x y Hij Hi Hj.
  - now rewrite lookup_nil in Hi.
  - destruct j as [|j]; [lia|]. simpl in Hj. destruct i as [|i]; simpl in Hi.
    + injection Hi as <-. rewrite Forall_forall in Hz. apply Hz.
      eapply list_elem_of_lookup_2. exact Hj.
    + apply (IH i j); [lia|assumption..].
Qed.

Lemma Sort_contract data : sort_contract less data (Sort less data).
Proof.
  split; [apply Sort_perm|].
  apply StronglySorted_sorted_by, Sort_sorted.
Qed.

End sort.

(** C1.  The comparator of the search says "less" exactly where the keys
    (indexName ascending, starCount descending, registryName ascending,
    name ascending, description ascending) compare [Lt] one after the
    other when [noIndex] is false, and where the keys (registryName
    ascending, starCount descending, name ascending, description
    ascending) do when [noIndex] is true; the index name has then no part
    in the comparison.  Whatever the sort returns for it, a rearrangement
    in which no entry is less than one before it, is in the order of these
    keys, and the insertion sort of the model is such a sort.  Two results
    of the indexes "b" with 1 star and "a" with 5 stars come out, with
    [noIndex] false, with the one of "a" first. *)
Theorem ranking_comparator :
  (forall noIndex a b,
      getSearchResultsCmpFunc (negb noIndex) a b = true <->
      ranking noIndex a b = Lt) /\
  (forall a a' b b',
      key_noIndex a = key_noIndex a' -> key_noIndex b = key_noIndex b' ->
      getSearchResultsCmpFunc false a b = getSearchResultsCmpFunc false a' b') /\
  (forall noIndex data out,
      sort_contract (getSearchResultsCmpFunc (negb noIndex)) data out ->
      forall i j x y, (i < j)%nat -> out !! i = Some x -> out !! j = Some y ->
        ranking noIndex x y <> Gt) /\
  (forall noIndex data,
      sort_contract (getSearchResultsCmpFunc (negb noIndex)) data
        (Sort (getSearchResultsCmpFunc (negb noIndex)) data)) /\
  (forall x y out,
      IndexName x = "b" -> StarCount x = 1 ->
      IndexName y = "a" -> StarCount y = 5 ->
      sort_contract (getSearchResultsCmpFunc (negb false)) [x; y] out ->
      out = [y; x]).
Proof.
  split; [|split; [|split; [|split]]].
  - intros noIndex a b. rewrite less_ranking.
    destruct (ranking noIndex a b); split; congruence.
  - intros a a' b b' Ha Hb. unfold key_noIndex in *.
    injection Ha as Ha1 Ha2 Ha3 Ha4. injection Hb as Hb1 Hb2 Hb3 Hb4.
    unfold getSearchResultsCmpFunc. simpl.
    now rewrite Ha1, Ha2, Ha3, Ha4, Hb1, Hb2, Hb3, Hb4.
  - intros noIndex data out [_ Hsorted] i j x y Hij Hi Hj Hgt.
    specialize (Hsorted i j x y Hij Hi Hj). rewrite less_ranking in Hsorted.
    rewrite (ko_antisym (cmp:=ranking noIndex) x y), Hgt in Hsorted.
    discriminate.
  - intros noIndex data. apply Sort_contract.
    + apply less_asym.
    + apply less_trans.
  - intros x y out Hx1 Hx2 Hy1 Hy2 [Hperm Hsorted].
    apply Permutation_length_2_inv in Hperm as [->| ->]; [|reflexivity].
    specialize (Hsorted 0%nat 1%nat x y ltac:(lia) eq_refl eq_refl).
    unfold getSearchResultsCmpFunc in Hsorted. simpl in Hsorted.
    rewrite Hx1, Hy1 in Hsorted. discriminate.
Qed.

(** The theorem at the two results of the example. *)
Lemma ranking_comparator_witness :
  sort_contract (getSearchResultsCmpFunc (negb false))
    [examples.b1; examples.a5] [examples.a5; examples.b1] /\
  [examples.a5; examples.b1] = [examples.a5; examples.b1].
Proof.
  assert (sort_contract (getSearchResultsCmpFunc (negb false))
            [examples.b1; examples.a5] [examples.a5; examples.b1]) as Hc.
  { split.
    - apply perm_swap.
    - intros [|[|i]] [|[|j]] x y Hij Hi Hj; try lia; simpl in Hi, Hj;
        try discriminate.
      injection Hi as <-. injection Hj as <-. reflexivity. }
  split; [exact Hc|].
  exact (proj2 (proj2 (proj2 (proj2 ranking_comparator)))
           examples.b1 examples.a5 _ eq_refl eq_refl eq_refl eq_refl Hc).
Defined.

End ranking.

(** ** The removal of duplicates *)

Module duplicates.

Import registrytypes registry.

Section dedup.

Variable QueryRegistries : list string.

Abbreviation prio := (prio QueryRegistries).
Abbreviation keep := (keep QueryRegistries).
Abbreviation collapse := (collapse QueryRegistries).

Lemma prio_range_spec rs indexName n :
  (exists k, prio_range rs indexName n = (n + k)%nat /\
             rs !! k = Some indexName /\
             forall k', (k' < k)%nat -> rs !! k' <> Some indexName) \/
  (prio_range rs indexName n = (n + length rs)%nat /\ indexName ∉ rs).
Proof.
  revert n. induction rs as [|r rs IH]; intros n; simpl.
  - right. split; [lia|]. apply not_elem_of_nil.
  - destruct (String.eqb_spec indexName r) as [->|Hne].
    + left. exists 0%nat. split; [lia|]. split; [reflexivity|]. lia.
    + destruct (IH (S n)) as [(k & Hk & Hl & Hfirst)|[Hk Hnot]].
      * left. exists (S k). split; [lia|]. split; [exact Hl|].
        intros [|k'] Hlt; simpl; [congruence|]. apply Hfirst. lia.
      * right. split; [lia|]. rewrite elem_of_cons. intros [?|?]; tauto.
Qed.

(** [prio] is the place of the index in the configured order, and the
    length of that list for an index that is not in it. *)
Lemma prio_spec indexName :
  (QueryRegistries !! prio indexName = Some indexName /\
   forall k, (k < prio indexName)%nat -> QueryRegistries !! k <> Some indexName) \/
  (prio indexName = length QueryRegistries /\ indexName ∉ QueryRegistries).
Proof.
  unfold registry.prio.
  destruct (prio_range_spec QueryRegistries indexName 0)
    as [(k & -> & Hl & Hfirst)|[-> Hnot]]; simpl; auto.
Qed.

(** The choice of the code between two entries that collide is [keep]. *)
Lemma step_keep prev curr :
  (if (prio (IndexName curr) <? prio (IndexName prev))%nat ||
      ((prio (IndexName prev) =? prio (IndexName curr))%nat &&
       (StarCount prev <? StarCount curr))
   then curr else prev) = keep prev curr.
Proof.
  unfold registry.keep.
  destruct (Nat.ltb_spec (prio (IndexName curr)) (prio (IndexName prev)));
    [reflexivity|].
  destruct (Nat.ltb_spec (prio (IndexName prev)) (prio (IndexName curr)));
    destruct (Nat.eqb_spec (prio (IndexName prev)) (prio (IndexName curr)));
    try lia; simpl; try reflexivity.
Qed.

(** The loop keeps [prevIndex] at the last entry of [res], and builds
    what the scan builds. *)
Lemma removeSearchDuplicates_range_collapse data done kept :
  removeSearchDuplicates_range QueryRegistries data (done ++ [kept], length done)
  = Some (done ++ collapse kept data).
Proof.
  revert done kept. induction data as [|curr data IH]; intros done kept.
  - reflexivity.
  - cbn [removeSearchDuplicates_range removeSearchDuplicates_step registry.collapse].
    rewrite list_lookup_middle by reflexivity.
    unfold collide.
    destruct (String.eqb (RegistryName kept) (RegistryName curr) &&
              String.eqb (Name kept) (Name curr)).
    + rewrite <- step_keep.
      destruct ((prio (IndexName curr) <? prio (IndexName kept))%nat ||
                ((prio (IndexName kept) =? prio (IndexName curr))%nat &&
                 (StarCount kept <? StarCount curr))).
      * rewrite insert_app_r_alt by lia. rewrite Nat.sub_diag. simpl.
        apply IH.
      * apply IH.
    + replace (S (length done)) with (length (done ++ [kept]))
        by (rewrite length_app; simpl; lia).
      rewrite IH. now rewrite <- app_assoc.
Qed.

Lemma removeSearchDuplicates_dedup data :
  removeSearchDuplicates QueryRegistries data = Some (dedup QueryRegistries data).
Proof.
  destruct data as [|data0 data]; [reflexivity|].
  apply (removeSearchDuplicates_range_collapse data [] data0).
Qed.

(** Two entries collide when they have the same registry and name. *)
Lemma collide_spec a b :
  collide a b = true <->
  RegistryName a = RegistryName b /\ Name a = Name b.
Proof.
  unfold collide. now rewrite andb_true_iff, !String.eqb_eq.
Qed.

Lemma keep_cases prev curr : keep prev curr = prev \/ keep prev curr = curr.
Proof.
  unfold registry.keep.
  repeat match goal with |- context [if ?b then _ else _] => destruct b end;
    auto.
Qed.

Lemma keep_collide prev curr x :
  collide prev curr = true -> collide (keep prev curr) x = collide prev x.
Proof.
  intros Hc. destruct (keep_cases prev curr) as [->| ->]; [reflexivity|].
  apply collide_spec in Hc as [H1 H2]. unfold collide. now rewrite H1, H2.
Qed.

(** The first entry of the scan has the registry and name of [kept]. *)
Lemma collapse_head kept data x :
  exists h rest, collapse kept data = h :: rest /\ collide h x = collide kept x.
Proof.
  revert kept. induction data as [|curr data IH]; intros kept; simpl.
  - eauto.
  - destruct (collide kept curr) eqn:Hc; [|eauto].
    destruct (IH (keep kept curr)) as (h & rest & -> & Hh).
    exists h, rest. split; [reflexivity|]. now rewrite Hh, keep_collide.
Qed.

Lemma collide_sym a b : collide a b = collide b a.
Proof.
  unfold collide.
  now rewrite (String.eqb_sym (RegistryName a)), (String.eqb_sym (Name a)).
Qed.

(** No two neighbours of the result collide. *)
Lemma collapse_no_collision kept data i x y :
  collapse kept data !! i = Some x -> collapse kept data !! S i = Some y ->
  collide x y = false.
Proof.
  revert kept i. induction data as [|curr data IH]; intros kept i; simpl.
  - destruct i; discriminate.
  - destruct (collide kept curr) eqn:Hc; [apply IH|].
    destruct i as [|i]; simpl; [|apply IH].
    intros [= <-].
    destruct (collapse_head curr data kept) as (h & rest & -> & Hh).
    simpl. intros [= <-].
    now rewrite collide_sym, Hh, collide_sym.
Qed.

End dedup.

Section search.

Context `{Collaborators}.

(** C2.  [Search] removes duplicates only when [noIndex] is set.  The
    removal scans the ranked sequence and collapses neighbours with the
    same (registryName, name): its loop never reads outside [res] and
    returns what the scan of the spec returns, in which no two
    neighbours collide.  Of two entries that collide, the one whose
    index comes earlier in the configured query-registry list is kept,
    an index outside the list coming after all of it, and the one with
    more stars when both indexes come at the same place; entries that do
    not collide are both kept.  With the list ["p0"; "p1"], the pair of
    p0 with 3 stars and p1 with 9 stars leaves the entry of p0. *)
Theorem duplicates_removed :
  (forall results,
      Search_rank false results =
      Some (Sort (getSearchResultsCmpFunc true) results)) /\
  (forall results,
      Search_rank true results =
      removeSearchDuplicates QueryRegistries
        (Sort (getSearchResultsCmpFunc false) results)) /\
  (forall data,
      removeSearchDuplicates QueryRegistries data =
      Some (dedup QueryRegistries data)) /\
  (forall data i x y,
      dedup QueryRegistries data !! i = Some x ->
      dedup QueryRegistries data !! S i = Some y ->
      collide x y = false) /\
  (forall a b,
      collide a b = false ->
      removeSearchDuplicates QueryRegistries [a; b] = Some [a; b]) /\
  (forall a b,
      collide a b = true ->
      (prio QueryRegistries (IndexName a) < prio QueryRegistries (IndexName b))%nat ->
      removeSearchDuplicates QueryRegistries [a; b] = Some [a] /\
      removeSearchDuplicates QueryRegistries [b; a] = Some [a]) /\
  (forall a b,
      collide a b = true ->
      prio QueryRegistries (IndexName a) = prio QueryRegistries (IndexName b) ->
      StarCount b < StarCount a ->
      removeSearchDuplicates QueryRegistries [a; b] = Some [a] /\
      removeSearchDuplicates QueryRegistries [b; a] = Some [a]) /\
  (forall indexName,
      (QueryRegistries !! prio QueryRegistries indexName = Some indexName /\
       forall k, (k < prio QueryRegistries indexName)%nat ->
                 QueryRegistries !! k <> Some indexName) \/
      (prio QueryRegistries indexName = length QueryRegistries /\
       indexName ∉ QueryRegistries)) /\
  (QueryRegistries = ["p0"; "p1"] ->
   removeSearchDuplicates QueryRegistries [examples.p0_3; examples.p1_9]
   = Some [examples.p0_3] /\
   Search_rank true [examples.p0_3; examples.p1_9] = Some [examples.p0_3]).
Proof.
  repeat apply conj.
  - reflexivity.
  - reflexivity.
  - apply removeSearchDuplicates_dedup.
  - intros [|data0 data] i x y; simpl.
    + now rewrite lookup_nil.
    + apply collapse_no_collision.
  - intros a b Hc. rewrite removeSearchDuplicates_dedup. simpl.
    now rewrite Hc.
  - intros a b Hc Hlt. rewrite !removeSearchDuplicates_dedup. simpl.
    rewrite (collide_sym b a), Hc. unfold keep.
    destruct (Nat.ltb_spec (prio QueryRegistries (IndexName a))
                           (prio QueryRegistries (IndexName b))); [|lia].
    destruct (Nat.ltb_spec (prio QueryRegistries (IndexName b))
                           (prio QueryRegistries (IndexName a))); [lia|].
    split; reflexivity.
  - intros a b Hc Heq Hstars. rewrite !removeSearchDuplicates_dedup. simpl.
    rewrite (collide_sym b a), Hc. unfold keep. rewrite Heq, Nat.ltb_irrefl.
    destruct (Z.ltb_spec (StarCount a) (StarCount b)); [lia|].
    destruct (Z.ltb_spec (StarCount b) (StarCount a)); [|lia].
    split; reflexivity.
  - apply prio_spec.
  - unfold Search_rank. intros ->. split; reflexivity.
Qed.

End search.

(** The theorem at the daemon of the examples and the pair of p0 and p1. *)
Lemma duplicates_removed_witness :
  collide examples.p0_3 examples.p1_9 = true /\
  (prio ["p0"; "p1"] "p0" < prio ["p0"; "p1"] "p1")%nat /\
  removeSearchDuplicates ["p0"; "p1"] [examples.p1_9; examples.p0_3]
  = Some [examples.p0_3] /\
  Search_rank (H:=examples.daemon) true [examples.p0_3; examples.p1_9]
  = Some [examples.p0_3].
Proof.
  pose proof (duplicates_removed (H:=examples.daemon))
    as (_ & _ & _ & _ & _ & Hprio & _ & _ & Hex).
  assert (collide examples.p0_3 examples.p1_9 = true) as Hc by reflexivity.
  assert (prio ["p0"; "p1"] "p0" < prio ["p0"; "p1"] "p1")%nat as Hlt
    by (vm_compute; lia).
  split; [exact Hc|]. split; [exact Hlt|]. split.
  - exact (proj2 (Hprio examples.p0_3 examples.p1_9 Hc Hlt)).
  - exact (proj2 (Hex eq_refl)).
Defined.

End duplicates.

(** ** Login *)

Module login.

Import registrytypes registry.

Section auth.

Context `{Collaborators}.
Variables (authConfig : types.AuthConfig) (userAgent : string).

Abbreviation attempt := (attempt authConfig userAgent).
Abbreviation Auth_range := (Auth_range authConfig userAgent).

(** The login of the loop is the one of the version of the endpoint. *)
Lemma Auth_range_cons endpoint rest err trace :
  Auth_range (endpoint :: rest) err trace =
  let trace := trace ++ [Login (Version endpoint) endpoint] in
  match attempt endpoint with
  | Ok (status, token) => (trace, (status, token, None))
  | Err (fallbackError fErr_err) =>
      Auth_range rest (Some fErr_err)
        (trace ++ [LogInfo (Version endpoint) fErr_err])
  | Err err' => (trace, ("", "", Some err'))
  end.
Proof.
  unfold registry.attempt. simpl. now destruct (Version endpoint).
Qed.

Lemma logins_app t1 t2 : logins (t1 ++ t2) = logins t1 ++ logins t2.
Proof. apply omap_app. Qed.

Lemma logged_app t1 t2 : logged (t1 ++ t2) = logged t1 ++ logged t2.
Proof. apply omap_app. Qed.

(** Endpoints whose logins end in a [fallbackError] are passed one after
    the other: each is tried, its error is logged, and [err] holds the
    error of the last of them. *)
Lemma Auth_range_fallbacks pre rest err trace :
  Forall (fun e => is_Some (fallback_of (attempt e))) pre ->
  exists trace',
    Auth_range (pre ++ rest) err trace =
    Auth_range rest
      (match last pre with
       | Some e => fallback_of (attempt e)
       | None => err
       end) trace' /\
    logins trace' = logins trace ++ pre /\
    logged trace' = logged trace ++ omap (fallback_of ∘ attempt) pre.
Proof.
  revert err trace. induction pre as [|e pre IH]; intros err trace Hall.
  - exists trace. now rewrite !app_nil_r.
  - apply Forall_cons in Hall as [[fe He] Hall].
    rewrite <- app_comm_cons, Auth_range_cons. cbn zeta.
    destruct (attempt e) as [[status token]|[msg|fErr_err|e']] eqn:Hatt;
      try discriminate.
    injection He as ->.
    destruct (IH (Some fe)
                ((trace ++ [Login (Version e) e]) ++ [LogInfo (Version e) fe])
                Hall) as (trace' & Heq & Hlogins & Hlogged).
    exists trace'. split; [|split].
    + rewrite Heq. destruct pre as [|e2 pre]; [simpl; now rewrite Hatt|].
      rewrite last_cons_cons.
      destruct (last (e2 :: pre)) eqn:Hlast; [reflexivity|].
      now apply last_None in Hlast.
    + rewrite Hlogins, !logins_app. simpl. now rewrite app_nil_r, <- app_assoc.
    + rewrite Hlogged, !logged_app. simpl. rewrite Hatt. simpl.
      now rewrite app_nil_r, <- app_assoc.
Qed.

(** C3.  [Auth] goes through the endpoints in their order, with the V1
    login at an endpoint of version V1 and the V2 login at any other.  It
    returns at the first login that succeeds, with its status and token;
    a login that ends in a [fallbackError] is logged and the next
    endpoint is tried; any other error is returned at once; in both cases
    no endpoint after that one is tried.  When the logins at all the
    endpoints end in a [fallbackError], the error inside the last one is
    returned. *)
Theorem auth_fallback :
  (forall e, Version e = APIVersion1 ->
             attempt e = loginV1 authConfig e userAgent) /\
  (forall e, Version e <> APIVersion1 ->
             attempt e = loginV2 authConfig e userAgent) /\
  (forall pre e rest status token,
      Forall (fun e => is_Some (fallback_of (attempt e))) pre ->
      attempt e = Ok (status, token) ->
      exists trace,
        Auth_range (pre ++ e :: rest) None [] = (trace, (status, token, None)) /\
        logins trace = pre ++ [e] /\
        logged trace = omap (fallback_of ∘ attempt) pre) /\
  (forall pre e rest err',
      Forall (fun e => is_Some (fallback_of (attempt e))) pre ->
      attempt e = Err err' -> fallback_of (Err err') = None ->
      exists trace,
        Auth_range (pre ++ e :: rest) None [] = (trace, ("", "", Some err')) /\
        logins trace = pre ++ [e] /\
        logged trace = omap (fallback_of ∘ attempt) pre) /\
  (forall pre e fErr_err,
      Forall (fun e => is_Some (fallback_of (attempt e))) pre ->
      attempt e = Err (fallbackError fErr_err) ->
      exists trace,
        Auth_range (pre ++ [e]) None [] = (trace, ("", "", Some fErr_err)) /\
        logins trace = pre ++ [e] /\
        logged trace = omap (fallback_of ∘ attempt) pre ++ [fErr_err]) /\
  (forall u_Host endpoints,
      types.ServerAddress authConfig <> "" ->
      url_Parse
        (if negb (strings.HasPrefix (types.ServerAddress authConfig) "https://") &&
            negb (strings.HasPrefix (types.ServerAddress authConfig) "http://")
         then "https://" +:+ types.ServerAddress authConfig
         else types.ServerAddress authConfig) = Ok u_Host ->
      LookupPushEndpoints u_Host = Ok endpoints ->
      Auth authConfig userAgent = Auth_range endpoints None []).
Proof.
  repeat apply conj.
  - intros e He. unfold registry.attempt. now rewrite He.
  - intros e He. unfold registry.attempt. now destruct (Version e).
  - intros pre e rest status token Hpre He.
    destruct (Auth_range_fallbacks pre (e :: rest) None [] Hpre)
      as (trace' & -> & Hlogins & Hlogged).
    rewrite Auth_range_cons, He. cbn zeta. eexists. split; [reflexivity|].
    rewrite logins_app, logged_app, Hlogins, Hlogged. simpl.
    now rewrite app_nil_r.
  - intros pre e rest err' Hpre He Hnot.
    destruct (Auth_range_fallbacks pre (e :: rest) None [] Hpre)
      as (trace' & -> & Hlogins & Hlogged).
    rewrite Auth_range_cons, He. cbn zeta.
    destruct err' as [msg|fe|e']; try discriminate;
      (eexists; split; [reflexivity|]);
      rewrite logins_app, logged_app, Hlogins, Hlogged; simpl;
      now rewrite app_nil_r.
  - intros pre e fe Hpre He.
    destruct (Auth_range_fallbacks pre [e] None [] Hpre)
      as (trace' & -> & Hlogins & Hlogged).
    rewrite Auth_range_cons, He. cbn zeta. simpl.
    eexists. split; [reflexivity|].
    rewrite !logins_app, !logged_app, Hlogins, Hlogged. simpl.
    now rewrite !app_nil_r.
  - intros u_Host endpoints Haddr Hurl Hlookup. unfold Auth.
    apply String.eqb_neq in Haddr. rewrite Haddr. cbn zeta.
    now rewrite Haddr, Hurl, Hlookup.
Qed.

End auth.

(** The theorem at the daemon of the examples: the V2 login falls back
    once, and the V1 login gives the result. *)
Lemma auth_fallback_witness :
  LookupPushEndpoints (H:=examples.daemon) "p0" = Ok [examples.v2_p0; examples.v1_p0] /\
  exists trace,
    Auth (H:=examples.daemon) examples.account "docker/18.06.1"
    = (trace, ("Login Succeeded", "", None)) /\
    logins trace = [examples.v2_p0; examples.v1_p0] /\
    logged trace = [errorString "registry does not support v2 API"].
Proof.
  split; [reflexivity|].
  pose proof (auth_fallback (H:=examples.daemon) examples.account "docker/18.06.1")
    as (_ & _ & Hfirst & _ & _ & Hauth).
  destruct (Hfirst [examples.v2_p0] examples.v1_p0 [] "Login Succeeded" "")
    as (trace & Hrun & Hlogins & Hlogged).
  - repeat constructor. now eexists.
  - reflexivity.
  - exists trace. split; [|split; assumption].
    rewrite <- Hrun. apply (Hauth "p0"); [discriminate|reflexivity..].
Defined.

End login.


(** ** Search *)

Module search.

Import strings strings_facts registrytypes registry.

(** A term is fully qualified when a valid index hostname stands before
    its first ['/']. *)
Lemma fully_qualified_spec term :
  isReposSearchTermFullyQualified term = true <->
  exists host rest,
    term = host +:+ "/" +:+ rest /\ reference.isValidHostname host = true.
Proof.
  unfold isReposSearchTermFullyQualified, splitReposSearchTerm, SplitN2,
    reference.isValidHostname.
  rewrite (Index_char term "/"). split.
  - destruct (IndexRune term "/") as [i|] eqn:Hi; [|discriminate].
    destruct (IndexRune_Some _ _ _ Hi) as [Hterm Hnone].
    intros Hq. exists (take i term), (drop (S i) term).
    split; [exact Hterm|].
    rewrite (Contains_char _ "/"). unfold ContainsRune. rewrite Hnone.
    destruct (Contains (take i term) "."), (Contains (take i term) ":"),
      (String.eqb (take i term) "localhost"); simpl in *;
      try discriminate; now rewrite Hq.
  - intros (host & rest & -> & Hvalid).
    rewrite (Contains_char _ "/") in Hvalid. unfold ContainsRune in Hvalid.
    destruct (IndexRune host "/") eqn:Hnone;
      [now rewrite andb_false_r in Hvalid|].
    change (host +:+ "/" +:+ rest) with (host +:+ String "/" rest).
    rewrite (IndexRune_append host "/" rest Hnone), take_append.
    destruct (Contains host "."), (Contains host ":"),
      (String.eqb host "localhost"), (String.eqb host "") eqn:Hne;
      simpl in *; try discriminate; now rewrite ?Hne.
Qed.

Section search.

Context `{Collaborators}.
Variables (limit : Z) (authConfig : option types.AuthConfig)
  (userAgent : string) (headers : list (string * list string)).

Abbreviation searchTerm term :=
  (searchTerm term limit authConfig userAgent headers).
Abbreviation searchRoutine :=
  (searchRoutine limit authConfig userAgent headers).
Abbreviation task_error term :=
  (task_error term limit authConfig userAgent headers).

(** Whether a task fails does not depend on what was found before. *)
Lemma searchTerm_error term outs : (searchTerm term outs).1 = task_error term.
Proof.
  unfold registry.task_error, registry.searchTerm.
  destruct (searchTerm_request term limit authConfig userAgent headers)
    as [[index [results|e]]|e]; try reflexivity.
  now destruct (NumResults results <? 1).
Qed.

Lemma tasks_app t1 t2 : tasks (t1 ++ t2) = tasks t1 ++ tasks t2.
Proof. apply omap_app. Qed.

Lemma searchRoutine_state st term :
  tasks (trace (searchRoutine st term)) = tasks (trace st) ++ [term] /\
  err (searchRoutine st term) = task_error term /\
  successfulSearch (searchRoutine st term) =
    match task_error term with
    | None => true
    | Some _ => successfulSearch st
    end.
Proof.
  unfold registry.searchRoutine. rewrite <- (searchTerm_error term (results st)).
  destruct (registry.searchTerm _ _ _ _ _ _) as [e outs]. simpl.
  rewrite tasks_app. simpl. split; [|split; reflexivity].
  now destruct e.
Qed.

(** The state of [Search] when all the tasks of [order] have run. *)
Lemma join_state order st :
  let st' := foldl searchRoutine st order in
  tasks (trace st') = tasks (trace st) ++ order /\
  err st' = match last order with
            | Some t => task_error t
            | None => err st
            end /\
  (successfulSearch st' = true <->
   successfulSearch st = true \/ exists t, t ∈ order /\ task_error t = None).
Proof.
  revert st. induction order as [|t order IH]; intros st; simpl.
  - rewrite app_nil_r. split; [reflexivity|]. split; [reflexivity|].
    split; [tauto|]. intros [?|(t & Ht & _)]; [assumption|].
    now apply elem_of_nil in Ht.
  - destruct (IH (searchRoutine st t)) as (Htasks & Herr & Hsucc).
    destruct (searchRoutine_state st t) as (Ht1 & Ht2 & Ht3).
    split; [|split].
    + rewrite Htasks, Ht1. now rewrite <- app_assoc.
    + rewrite Herr. destruct order as [|t2 order]; [exact Ht2|].
      rewrite last_cons_cons.
      destruct (last (t2 :: order)) eqn:Hlast; [reflexivity|].
      now apply last_None in Hlast.
    + rewrite Hsucc, Ht3. split.
      * intros [Hs|(t' & Hin & Hnone)].
        -- destruct (task_error t) eqn:Hte; [tauto|].
           right. exists t. split; [apply list_elem_of_here|assumption].
        -- right. exists t'. split; [now apply list_elem_of_further|assumption].
      * intros [Hs|(t' & Hin & Hnone)].
        -- left. now destruct (task_error t).
        -- apply elem_of_cons in Hin as [->|Hin].
           ++ left. now rewrite Hnone.
           ++ right. eauto.
Qed.

Lemma Search_rank_total noIndex outs : is_Some (Search_rank noIndex outs).
Proof.
  unfold Search_rank. destruct noIndex; [|eauto].
  rewrite duplicates.removeSearchDuplicates_dedup. eauto.
Qed.

(** When one of the tasks succeeds, [Search] returns results. *)
Lemma Search_partial_failure order term noIndex t :
  isReposSearchTermFullyQualified term = false ->
  QueryRegistries <> [] ->
  Permutation order (Search_tasks term) ->
  t ∈ Search_tasks term -> task_error t = None ->
  exists trace results,
    Search order term limit authConfig userAgent headers noIndex
    = Some (trace, Ok results) /\ tasks trace = order.
Proof.
  intros Hq Hne Hperm Hin Hnone. unfold Search. rewrite Hq.
  destruct QueryRegistries as [|r rs] eqn:Hqr; [contradiction|].
  cbn [length Nat.ltb Nat.leb].
  destruct (join_state order
              {| results := []; err := None; successfulSearch := false;
                 trace := [] |}) as (Htasks & _ & _ & Hsucc).
  simpl in Htasks, Hsucc. rewrite Hsucc.
  2:{ right. exists t. split; [|assumption]. now rewrite Hperm. }
  simpl.
  destruct (Search_rank_total noIndex
              (results (foldl searchRoutine
                 {| results := []; err := None; successfulSearch := false;
                    trace := [] |} order))) as [ranked ->].
  eauto.
Qed.



End search.



End search.

(** ** Endpoints *)

Module endpoints.

Import registrytypes registry.

Lemma split_v2_before_v1 (l2 l1 : list APIEndpoint) :
  Forall (fun e => Version e = APIVersion2) l2 ->
  Forall (fun e => Version e = APIVersion1) l1 ->
  v2_before_v1 (l2 ++ l1).
Proof.
  intros H2 H1 i j x y Hi Hj Hx Hy.
  rewrite Forall_forall in H2, H1.
  destruct (Nat.lt_ge_cases i (length l2)) as [Hlt|Hge].
  - destruct (Nat.lt_ge_cases j (length l2)) as [Hjlt|Hjge]; [|lia].
    rewrite lookup_app_l in Hj by assumption.
    apply list_elem_of_lookup_2, H2 in Hj. congruence.
  - rewrite lookup_app_r in Hi by assumption.
    apply list_elem_of_lookup_2, H1 in Hi. congruence.
Qed.

Lemma Forall_filter {A} (P Q : A -> Prop) `{!forall x, Decision (Q x)} l :
  Forall P l -> Forall P (filter Q l).
Proof.
  rewrite !Forall_forall. intros HP x Hx.
  apply list_elem_of_filter in Hx as [_ Hx]. now apply HP.
Qed.

Section lookup.

Context `{Collaborators}.

(** The loop of [LookupPushEndpoints] keeps the endpoints that are not
    mirrors. *)
Lemma LookupPushEndpoints_range_filter allEndpoints endpoints :
  LookupPushEndpoints_range allEndpoints endpoints =
  endpoints ++ filter (fun e => Mirror e = false) allEndpoints.
Proof.
  revert endpoints. induction allEndpoints as [|e l IH]; intros endpoints; simpl.
  - now rewrite app_nil_r.
  - rewrite filter_cons. destruct (Mirror e); simpl.
    + rewrite IH. now destruct (decide (true = false)).
    + rewrite IH, <- app_assoc. now destruct (decide (false = false)).
Qed.

Lemma mirrorEndpoints_v2 mirrors endpoints :
  mirrorEndpoints mirrors = Ok endpoints ->
  Forall (fun e => Version e = APIVersion2) endpoints.
Proof.
  revert endpoints. induction mirrors as [|m mirrors IH]; intros endpoints; simpl.
  - intros [= <-]. constructor.
  - destruct (tlsConfigForMirror m); [|discriminate].
    destruct (mirrorEndpoints mirrors); [|discriminate].
    intros [= <-]. constructor; [reflexivity|]. now apply IH.
Qed.

Lemma lookupV2Endpoints_v2 hostname endpoints :
  lookupV2Endpoints hostname = Ok endpoints ->
  Forall (fun e => Version e = APIVersion2) endpoints.
Proof.
  unfold lookupV2Endpoints.
  destruct (service_tlsConfig hostname); [|discriminate].
  destruct (mirrorEndpoints config_Mirrors) eqn:Hm; [|discriminate].
  intros [= <-]. apply Forall_app. split.
  - now apply (mirrorEndpoints_v2 config_Mirrors).
  - now repeat constructor.
Qed.

Lemma lookupV1Endpoints_v1 hostname endpoints :
  lookupV1Endpoints hostname = Ok endpoints ->
  Forall (fun e => Version e = APIVersion1) endpoints.
Proof.
  unfold lookupV1Endpoints.
  destruct (service_tlsConfig hostname); [|discriminate].
  intros [= <-]. destruct (isSecureIndex hostname); now repeat constructor.
Qed.

(** The endpoints of a lookup are those of V2 followed by those of V1,
    of which there are none when the service is V2 only. *)
Lemma lookupEndpoints_split hostname endpoints :
  lookupEndpoints hostname = Ok endpoints ->
  exists l2 l1,
    endpoints = l2 ++ l1 /\
    Forall (fun e => Version e = APIVersion2) l2 /\
    Forall (fun e => Version e = APIVersion1) l1 /\
    (V2Only = true -> l1 = []).
Proof.
  unfold lookupEndpoints.
  destruct (lookupV2Endpoints hostname) as [l2|] eqn:H2; [|discriminate].
  apply lookupV2Endpoints_v2 in H2.
  destruct V2Only.
  - intros [= <-]. exists l2, []. rewrite app_nil_r. auto.
  - destruct (lookupV1Endpoints hostname) as [l1|] eqn:H1; [|discriminate].
    apply lookupV1Endpoints_v1 in H1.
    intros [= <-]. exists l2, l1. repeat split; auto. discriminate.
Qed.

(** C6.  No endpoint that [LookupPushEndpoints] returns is a mirror: it
    returns the endpoints of [LookupPullEndpoints] that are not mirrors,
    in their order.  In what either lookup returns, every endpoint of
    version V2 stands before every endpoint of version V1, and all the
    endpoints are of version V2 when the service is V2 only. *)
Theorem lookup_endpoints_order hostname :
  (forall endpoints,
      LookupPushEndpoints hostname = Ok endpoints ->
      Forall (fun e => Mirror e = false) endpoints /\
      v2_before_v1 endpoints /\
      (V2Only = true -> Forall (fun e => Version e = APIVersion2) endpoints)) /\
  (forall endpoints,
      LookupPullEndpoints hostname = Ok endpoints ->
      LookupPushEndpoints hostname
      = Ok (filter (fun e => Mirror e = false) endpoints) /\
      v2_before_v1 endpoints /\
      (V2Only = true -> Forall (fun e => Version e = APIVersion2) endpoints)).
Proof.
  split; intros endpoints.
  - unfold LookupPushEndpoints.
    destruct (lookupEndpoints hostname) as [all|] eqn:Hall; [|discriminate].
    intros [= <-]. rewrite LookupPushEndpoints_range_filter. simpl.
    destruct (lookupEndpoints_split _ _ Hall) as (l2 & l1 & -> & H2 & H1 & Hv2).
    split; [|split].
    + apply Forall_forall. intros e He. now apply list_elem_of_filter in He.
    + rewrite filter_app.
      apply split_v2_before_v1; now apply Forall_filter.
    + intros Honly. rewrite (Hv2 Honly), app_nil_r. now apply Forall_filter.
  - unfold LookupPullEndpoints, LookupPushEndpoints. intros Hall.
    rewrite Hall, LookupPushEndpoints_range_filter. simpl.
    destruct (lookupEndpoints_split _ _ Hall) as (l2 & l1 & -> & H2 & H1 & Hv2).
    split; [reflexivity|]. split.
    + now apply split_v2_before_v1.
    + intros Honly. now rewrite (Hv2 Honly), app_nil_r.
Qed.

End lookup.

(** The theorem at the daemon of the examples, which has one mirror. *)
Lemma lookup_endpoints_order_witness :
  LookupPushEndpoints (H:=examples.daemon) "p0" = Ok [examples.v2_p0; examples.v1_p0] /\
  Forall (fun e => Mirror e = false) [examples.v2_p0; examples.v1_p0] /\
  v2_before_v1 [examples.v2_p0; examples.v1_p0].
Proof.
  split; [reflexivity|].
  destruct (proj1 (lookup_endpoints_order (H:=examples.daemon) "p0")
              [examples.v2_p0; examples.v1_p0] eq_refl) as (Hmirror & Horder & _).
  split; assumption.
Defined.

End endpoints.

(** ** References *)

Module names.

Import strings strings_facts reference.

(** The domain is empty and the remainder the whole name, or the name is
    the domain, a ['/'] and the remainder. *)
Lemma splitDomain_spec name :
  splitDomain name = ("", name) \/
  exists domain remainder,
    splitDomain name = (domain, remainder) /\
    name = domain +:+ "/" +:+ remainder /\
    IndexRune domain "/" = None /\ is_domain domain = true /\ domain <> "".
Proof.
  unfold splitDomain.
  destruct (IndexRune name "/") as [i|] eqn:Hi; [|now left].
  destruct (IndexRune_Some _ _ _ Hi) as [Hname Hnone].
  destruct (is_domain (take i name)) eqn:Hd.
  - right. exists (take i name), (drop (i + 1) name).
    pose proof Hd as Hd'. unfold is_domain in Hd'.
    replace (negb (ContainsAny (take i name) ".:") &&
             negb (String.eqb (take i name) "localhost"))
      with false by (now rewrite <- negb_orb, Hd').
    rewrite Nat.add_1_r. split; [reflexivity|]. split; [exact Hname|].
    split; [exact Hnone|]. split; [exact Hd|].
    intros Hempty. rewrite Hempty in Hd. discriminate.
  - left. unfold is_domain in Hd.
    now rewrite <- negb_orb, Hd.
Qed.

(** A name without ['/'] has no domain. *)
Lemma splitDomain_single n :
  ContainsRune n "/" = false -> splitDomain n = ("", n).
Proof.
  unfold splitDomain, ContainsRune.
  now destruct (IndexRune n "/").
Qed.

(** A domain before a ['/'] is split off. *)
Lemma splitDomain_domain d r :
  IndexRune d "/" = None -> is_domain d = true ->
  splitDomain (d +:+ "/" +:+ r) = (d, r).
Proof.
  intros Hnone Hd. unfold splitDomain.
  change (d +:+ "/" +:+ r) with (d +:+ String "/" r).
  rewrite (IndexRune_append d "/" r Hnone), take_append.
  unfold is_domain in Hd.
  replace (negb (ContainsAny d ".:") && negb (String.eqb d "localhost"))
    with false by (now rewrite <- negb_orb, Hd).
  change (d +:+ String "/" r) with (d +:+ "/" +:+ r).
  now rewrite drop_append.
Qed.

Lemma all_chars_IndexRune p s c :
  all_chars p s = true -> p c = false -> IndexRune s c = None.
Proof.
  intros Hall Hc. induction s as [|a s IH]; simpl in *; [reflexivity|].
  apply andb_true_iff in Hall as [Ha Hs].
  destruct (Ascii.eqb_spec a c) as [->|_]; [congruence|].
  now rewrite IH.
Qed.

(** A string of hexadecimal digits that are not all in lower case has an
    upper-case letter. *)
Lemma hex_upper s :
  all_chars is_hex_any_case s = true -> all_chars is_hex s = false ->
  has_upper s = true.
Proof.
  induction s as [|a s IH]; simpl; [discriminate|].
  rewrite andb_true_iff, andb_false_iff, orb_true_iff. intros [Ha Hs] Hlow.
  destruct (is_hex a) eqn:Hhex.
  - right. apply IH; [assumption|]. now destruct Hlow.
  - left. unfold is_hex_any_case in Ha. rewrite Hhex, orb_false_l in Ha.
    unfold is_upper. apply andb_true_iff in Ha as [H1 H2].
    apply Nat.leb_le in H1, H2. apply andb_true_iff.
    split; apply Nat.leb_le; lia.
Qed.

Lemma remoteNameOf_whole r : IndexRune r ":" = None -> remoteNameOf r = r.
Proof. unfold remoteNameOf. now intros ->. Qed.

Lemma has_upper_remoteNameOf r :
  has_upper r = false -> has_upper (remoteNameOf r) = false.
Proof.
  unfold remoteNameOf. destruct (IndexRune r ":"); [|auto].
  apply has_upper_take.
Qed.

Section part_000.

Context `{Distribution}.
Variable DefaultRegistries : list string.

Abbreviation splitDockerDomain := (part_000.splitDockerDomain DefaultRegistries).
Abbreviation normalizedName := (part_000.normalizedName DefaultRegistries).
Abbreviation ParseNormalizedNamed :=
  (part_000.ParseNormalizedNamed DefaultRegistries).
Abbreviation trimDefaultRegistry :=
  (part_000.trimDefaultRegistry DefaultRegistries).

(** The loop over the default registries leaves the remainder as it is,
    or puts [library/] before a remainder that has no ['/'], and this
    for the empty domain and for a domain among the registries only. *)
Lemma splitDockerDomain_range_cases rs domain remainder :
  part_000.splitDockerDomain_range rs domain remainder = (domain, remainder) \/
  (part_000.splitDockerDomain_range rs domain remainder
   = (domain, "library/" +:+ remainder) /\
   ContainsRune remainder "/" = false /\
   (domain = "" \/ domain ∈ rs)).
Proof.
  induction rs as [|r rs IH]; simpl; [now left|].
  destruct (String.eqb_spec domain r) as [->|Hr]; simpl.
  - destruct (ContainsRune remainder "/") eqn:Hc; simpl.
    + destruct IH as [IH|(_ & Hc' & _)]; [now left|congruence].
    + right. repeat split. right. apply list_elem_of_here.
  - destruct (String.eqb_spec domain "") as [->|Hd]; simpl.
    + destruct (ContainsRune remainder "/") eqn:Hc; simpl.
      * destruct IH as [IH|(_ & Hc' & _)]; [now left|congruence].
      * right. repeat split. now left.
    + destruct IH as [IH|(IH & Hc & [Hd'|Hin])]; [now left|contradiction|].
      right. repeat split; try assumption. right.
      now apply list_elem_of_further.
Qed.

(** The name that is parsed is the raw name, with [library/] put in
    after the domain or not: no letter of it is changed. *)
Lemma normalizedName_spec s :
  normalizedName s = s \/
  exists domain n, s = domain +:+ n /\ normalizedName s = domain +:+ "library/" +:+ n.
Proof.
  unfold part_000.normalizedName, part_000.splitDockerDomain.
  destruct (splitDomain_spec s) as [->|(d & r & -> & Hs & _ & _ & Hd)].
  - destruct (splitDockerDomain_range_cases DefaultRegistries "" s)
      as [->|(-> & _)]; simpl; [now left|].
    right. now exists "", s.
  - apply String.eqb_neq in Hd.
    destruct (splitDockerDomain_range_cases DefaultRegistries d r)
      as [->|(-> & _)]; rewrite Hd.
    + left. now rewrite Hs.
    + right. exists (d +:+ "/"), r. split.
      * now rewrite Hs, append_assoc.
      * now rewrite append_assoc.
Qed.

Lemma ParseNormalizedNamed_unfold s :
  ParseNormalizedNamed s =
  if anchoredIdentifierRegexp_MatchString s then Err (ErrIdentifier s)
  else if has_upper (remoteNameOf (splitDockerDomain s).2)
       then Err ErrNotLowercase
       else asNamed (Parse (normalizedName s)).
Proof.
  unfold part_000.ParseNormalizedNamed, part_000.normalizedName.
  destruct (anchoredIdentifierRegexp_MatchString s); [reflexivity|].
  destruct (splitDockerDomain s) as [domain remainder]. simpl.
  rewrite ToLower_eqb, negb_involutive.
  now destruct (has_upper (remoteNameOf remainder)).
Qed.


End part_000.

Lemma not_identifier_with_slash d r :
  anchoredIdentifierRegexp_MatchString (d +:+ "/" +:+ r) = false.
Proof.
  unfold anchoredIdentifierRegexp_MatchString.
  destruct (all_chars is_hex (d +:+ "/" +:+ r)) eqn:Hall;
    [|apply andb_false_r].
  apply (all_chars_IndexRune _ _ "/") in Hall; [|reflexivity].
  change (d +:+ "/" +:+ r) with (d +:+ String "/" r) in Hall.
  apply IndexRune_append_None in Hall as [_ Hall]. simpl in Hall. discriminate.
Qed.

Lemma has_upper_library n :
  has_upper n = false -> has_upper (remoteNameOf ("library/" +:+ n)) = false.
Proof.
  intros Hn. apply has_upper_remoteNameOf.
  now rewrite has_upper_append, Hn.
Qed.

Section library.

Context `{Distribution}.
Variable DefaultRegistries : list string.
Variables DefaultNamespace DefaultRegistry : string.

Abbreviation splitDockerDomain0 := (part_000.splitDockerDomain DefaultRegistries).
Abbreviation ParseNormalizedNamed := (part_000.ParseNormalizedNamed DefaultRegistries).
Abbreviation splitDockerDomain1 :=
  (part_001.splitDockerDomain DefaultNamespace DefaultRegistry).
Abbreviation ParseNamed := (part_001.ParseNamed DefaultNamespace DefaultRegistry).

Lemma splitDockerDomain_range_library rs domain n :
  ContainsRune n "/" = false ->
  (domain = "" /\ rs <> []) \/ domain ∈ rs ->
  part_000.splitDockerDomain_range rs domain n = (domain, "library/" +:+ n).
Proof.
  intros Hn. induction rs as [|r rs IH]; intros Hd; simpl.
  - destruct Hd as [[_ Hne]|Hin]; [contradiction|].
    now apply elem_of_nil in Hin.
  - rewrite Hn. simpl. rewrite andb_true_r.
    destruct (String.eqb_spec domain r) as [->|Hr]; [reflexivity|].
    destruct (String.eqb_spec domain "") as [->|Hempty]; [reflexivity|].
    simpl. apply IH. right. destruct Hd as [[? _]|Hin]; [contradiction|].
    apply elem_of_cons in Hin as [?|?]; [contradiction|assumption].
Qed.

Lemma splitDockerDomain_range_keep rs domain remainder :
  ContainsRune remainder "/" = true \/ (domain <> "" /\ domain ∉ rs) ->
  part_000.splitDockerDomain_range rs domain remainder = (domain, remainder).
Proof.
  intros Hk.
  destruct (splitDockerDomain_range_cases rs domain remainder)
    as [?|(_ & Hc & Hd)]; [assumption|].
  destruct Hk as [Hk|[Hne Hnot]]; [congruence|].
  destruct Hd; contradiction.
Qed.


End library.




Section trim.

Variable DefaultRegistries : list string.

Abbreviation trimDefaultRegistry :=
  (part_000.trimDefaultRegistry DefaultRegistries).

Lemma trimDefaultRegistry_range_other rs s domain :
  domain ∉ rs -> part_000.trimDefaultRegistry_range rs s domain = s.
Proof.
  induction rs as [|r rs IH]; intros Hnot; simpl; [reflexivity|].
  apply not_elem_of_cons in Hnot as [Hr Hnot].
  apply String.eqb_neq in Hr. rewrite Hr. now apply IH.
Qed.

Lemma trimDefaultRegistry_range_default rs s domain :
  domain ∈ rs ->
  part_000.trimDefaultRegistry_range rs s domain =
  match Index s (domain +:+ "/library") with
  | Some _ => Replace1 s (domain +:+ "/library/") ""
  | None => Replace1 s (domain +:+ "/") ""
  end.
Proof.
  induction rs as [|r rs IH]; intros Hin; simpl.
  - now apply elem_of_nil in Hin.
  - destruct (String.eqb_spec domain r) as [->|Hr]; [reflexivity|].
    apply IH. apply elem_of_cons in Hin as [?|?]; [contradiction|assumption].
Qed.

Lemma Index_prefix s p : Index (p +:+ s) p = Some 0%nat.
Proof.
  pose proof (HasPrefix_append s p) as Hp.
  destruct (p +:+ s); simpl; now rewrite Hp.
Qed.

Lemma Replace1_prefix s p : Replace1 (p +:+ s) p "" = s.
Proof.
  unfold Replace1. rewrite Index_prefix. simpl.
  now rewrite <- (Nat.add_0_r (String.length p)), drop_append.
Qed.

(** Where [trimDefaultRegistry] does what is asked of it: a name whose
    domain is no default registry is left as it is; [r/library/] is
    taken off a name that begins with it; and [r/] is taken off a name in
    which [r/library] does not occur. *)
Lemma trimDefaultRegistry_cases :
  (forall s, (part_000.splitDockerDomain DefaultRegistries s).1 ∉ DefaultRegistries ->
             trimDefaultRegistry s = s) /\
  (forall r x,
      r ∈ DefaultRegistries -> IndexRune r "/" = None -> is_domain r = true ->
      trimDefaultRegistry (r +:+ "/library/" +:+ x) = x) /\
  (forall r x,
      r ∈ DefaultRegistries -> IndexRune r "/" = None -> is_domain r = true ->
      Index (r +:+ "/" +:+ x) (r +:+ "/library") = None ->
      trimDefaultRegistry (r +:+ "/" +:+ x) = x).
Proof.
  split; [|split].
  - intros s Hnot. unfold part_000.trimDefaultRegistry.
    destruct (part_000.splitDockerDomain DefaultRegistries s) as [domain rem].
    now apply trimDefaultRegistry_range_other.
  - intros r x Hin Hslash Hd. unfold part_000.trimDefaultRegistry.
    assert ((part_000.splitDockerDomain DefaultRegistries
               (r +:+ "/library/" +:+ x)).1 = r) as Hdom.
    { unfold part_000.splitDockerDomain.
      change (r +:+ "/library/" +:+ x) with (r +:+ "/" +:+ "library/" +:+ x).
      rewrite (splitDomain_domain r _ Hslash Hd).
      now destruct (splitDockerDomain_range_cases DefaultRegistries r
                      ("library/" +:+ x)) as [->|(-> & _)]. }
    destruct (part_000.splitDockerDomain DefaultRegistries _) as [domain rem].
    simpl in Hdom. subst domain.
    rewrite (trimDefaultRegistry_range_default _ _ _ Hin).
    rewrite <- (append_assoc r "/library/" x).
    replace (Index ((r +:+ "/library/") +:+ x) (r +:+ "/library"))
      with (Some 0%nat).
    + apply Replace1_prefix.
    + rewrite (append_assoc r "/library/" x).
      change (r +:+ "/library/" +:+ x) with (r +:+ "/library" +:+ "/" +:+ x).
      rewrite <- (append_assoc r "/library" ("/" +:+ x)).
      now rewrite Index_prefix.
  - intros r x Hin Hslash Hd Hnone. unfold part_000.trimDefaultRegistry.
    assert ((part_000.splitDockerDomain DefaultRegistries
               (r +:+ "/" +:+ x)).1 = r) as Hdom.
    { unfold part_000.splitDockerDomain.
      rewrite (splitDomain_domain r _ Hslash Hd).
      now destruct (splitDockerDomain_range_cases DefaultRegistries r x)
        as [->|(-> & _)]. }
    destruct (part_000.splitDockerDomain DefaultRegistries _) as [domain rem].
    simpl in Hdom. subst domain.
    rewrite (trimDefaultRegistry_range_default _ _ _ Hin), Hnone.
    rewrite <- (append_assoc r "/" x). apply Replace1_prefix.
Qed.

End trim.

(** C5.  At the name [registry.example.com/libraryfoo/bar], with
    [registry.example.com] a default registry, the repository path does not
    begin with [library/] and the spec has [trimDefaultRegistry] take
    [registry.example.com/] off; the code looks for
    [registry.example.com/library], finds it, replaces
    [registry.example.com/library/], which is not there, and returns the
    name as it was.  And where [r/library/] occurs further on in the name
    it is taken out of the middle and the domain stays. *)
Theorem trimDefaultRegistry_library_like :
  part_000.splitDockerDomain ["registry.example.com"]
    "registry.example.com/libraryfoo/bar"
  = ("registry.example.com", "libraryfoo/bar") /\
  part_000.trimDefaultRegistry ["registry.example.com"]
    "registry.example.com/libraryfoo/bar"
  = "registry.example.com/libraryfoo/bar" /\
  part_000.trimDefaultRegistry ["registry.example.com"]
    "registry.example.com/libraryfoo/bar"
  <> "libraryfoo/bar" /\
  part_000.trimDefaultRegistry ["r.io"] "r.io/foo/r.io/library/bar"
  = "r.io/foo/bar".
Proof.
  split; [reflexivity|]. split; [reflexivity|]. split; [|reflexivity].
  vm_compute. discriminate.
Qed.

End names.

(** ** Qualified references *)

Module qualify.

Import strings strings_facts reference utils.

Section qualify.

Context `{Distribution}.

(** The index of a reference is empty, or a valid hostname. *)
Lemma SplitReposName_index ref :
  (SplitReposName ref).1 = "" /\ SplitReposName ref = ("", Ok ref) \/
  isValidHostname (SplitReposName ref).1 = true.
Proof.
  unfold SplitReposName. destruct (SplitHostname ref) as [indexName remote].
  destruct (isValidHostname indexName) eqn:Hv; simpl; [|now left].
  right. now destruct (WithName remote).
Qed.

Lemma not_qualified ref :
  IsReferenceFullyQualified ref = false -> SplitReposName ref = ("", Ok ref).
Proof.
  unfold IsReferenceFullyQualified. intros Hq.
  apply negb_false_iff, String.eqb_eq in Hq.
  destruct (SplitReposName_index ref) as [[_ ?]|Hv]; [assumption|].
  rewrite Hq in Hv. discriminate.
Qed.

Lemma qualified_unchanged ref indexName remote :
  isValidHostname indexName = true ->
  IsReferenceFullyQualified ref = true ->
  (SplitReposName ref).2 = Ok remote ->
  QualifyUnqualifiedReference ref indexName = Ok ref.
Proof.
  unfold QualifyUnqualifiedReference, IsReferenceFullyQualified.
  intros -> Hq Hremote. simpl.
  destruct (SplitReposName ref) as [orig r]. simpl in *. subst r.
  now apply negb_true_iff in Hq as ->.
Qed.

(** A valid hostname is not empty, has no ['/'], and has a ['.'] or a [':']
    or is [localhost]. *)
Lemma isValidHostname_spec hostname :
  isValidHostname hostname = true <->
  hostname <> "" /\ ContainsRune hostname "/" = false /\
  (ContainsRune hostname "." = true \/ ContainsRune hostname ":" = true \/
   hostname = "localhost").
Proof.
  unfold isValidHostname.
  rewrite (Contains_char _ "/"), (Contains_char _ "."), (Contains_char _ ":").
  rewrite !andb_true_iff, !orb_true_iff, !negb_true_iff, String.eqb_neq,
    String.eqb_eq.
  tauto.
Qed.


End qualify.


End qualify.


(** ** The comparator as an order, and what a sort can return *)

Module comparator.

Import registrytypes registry orders.

Lemma then_by_Eq c1 c2 : then_by c1 c2 = Eq <-> c1 = Eq /\ c2 = Eq.
Proof.
  destruct c1, c2; simpl; split; try tauto; try discriminate;
    intros [H1 H2]; discriminate.
Qed.

Lemma then_by_Eq_r c : then_by c Eq = c.
Proof. now destruct c. Qed.

(** The ranking of two results is the comparison of their keys. *)
Lemma ranking_key_compare noIndex a b :
  ranking noIndex a b = key_compare noIndex (sort_key noIndex a) (sort_key noIndex b).
Proof.
  unfold ranking, key_compare, sort_key, key_noIndex. destruct noIndex; simpl.
  - change (asc "" "") with Eq. now rewrite then_by_Eq_r.
  - reflexivity.
Qed.

Lemma key_compare_Eq noIndex k1 k2 : key_compare noIndex k1 k2 = Eq <-> k1 = k2.
Proof.
  destruct k1 as [i1 [[[r1 s1] n1] d1]], k2 as [i2 [[[r2 s2] n2] d2]].
  unfold key_compare, asc, desc. destruct noIndex;
    rewrite !then_by_Eq, !string_compare_Eq, !Z.compare_eq_iff;
    (split; [intros Hk; decompose [and] Hk; subst; reflexivity
            |intros [=]; subst; tauto]).
Qed.

Lemma key_compare_antisym noIndex k1 k2 :
  key_compare noIndex k2 k1 = CompOpp (key_compare noIndex k1 k2).
Proof.
  destruct k1 as [i1 [[[r1 s1] n1] d1]], k2 as [i2 [[[r2 s2] n2] d2]].
  unfold key_compare, asc, desc.
  rewrite (String.compare_antisym i1 i2), (String.compare_antisym r1 r2),
    (String.compare_antisym n1 n2), (String.compare_antisym d1 d2),
    (Z.compare_antisym s2 s1).
  destruct noIndex;
    destruct (String.compare i2 i1), (String.compare r2 r1), (Z.compare s2 s1),
      (String.compare n2 n1), (String.compare d2 d1); reflexivity.
Qed.

(** Two results that the comparator does not order have the same keys. *)
Lemma unordered_keys noIndex a b :
  getSearchResultsCmpFunc (negb noIndex) a b = false ->
  getSearchResultsCmpFunc (negb noIndex) b a = false ->
  sort_key noIndex a = sort_key noIndex b.
Proof.
  rewrite !less_ranking, (ko_antisym (cmp:=ranking noIndex) a b).
  rewrite ranking_key_compare. intros Hab Hba.
  apply (key_compare_Eq noIndex).
  destruct (key_compare noIndex (sort_key noIndex a) (sort_key noIndex b));
    simpl in *; congruence.
Qed.

(** X1.  The comparator is a strict order on the results, as [sort.Sort] needs
    it: no result is less than itself, of two results one at most is less
    than the other, and less goes through a chain.  Two results are left
    unordered exactly when they have the same keys: index name (when the
    index counts), registry name, star count, name and description. *)
Theorem comparator_strict_order noIndex :
  let less := getSearchResultsCmpFunc (negb noIndex) in
  (forall a, less a a = false) /\
  (forall a b, less a b = true -> less b a = false) /\
  (forall a b c, less a b = true -> less b c = true -> less a c = true) /\
  (forall a b,
      less a b = false /\ less b a = false <->
      sort_key noIndex a = sort_key noIndex b).
Proof.
  cbn zeta. split; [|split; [|split]].
  - intros a. destruct (getSearchResultsCmpFunc (negb noIndex) a a) eqn:Haa;
      [|reflexivity].
    now rewrite (less_asym noIndex a a Haa) in Haa.
  - apply less_asym.
  - apply less_trans.
  - intros a b. split.
    + intros [Hab Hba]. now apply unordered_keys.
    + intros Hkey. rewrite !less_ranking, !ranking_key_compare, Hkey.
      now rewrite (proj2 (key_compare_Eq noIndex _ _) eq_refl).
Qed.

(** The theorem at the results of p0 and p1 for one repository: with the
    index they are ordered, p0 first. *)
Lemma comparator_strict_order_witness :
  getSearchResultsCmpFunc (negb false) examples.p1_9 examples.p0_3 = false.
Proof.
  apply (proj1 (proj2 (comparator_strict_order false))). reflexivity.
Defined.

Lemma sorted_by_StronglySorted {A} (less : A -> A -> bool) l :
  sorted_by less l -> StronglySorted (in_order less) l.
Proof.
  induction l as [|x l IH]; intros Hs; constructor.
  - apply IH. intros i j y z Hij Hi Hj.
    apply (Hs (S i) (S j) y z); [lia|assumption..].
  - apply Forall_forall. intros y Hy.
    apply list_elem_of_lookup in Hy as [j Hj].
    apply (Hs 0%nat (S j) x y); [lia|reflexivity|exact Hj].
Qed.

(** Two sorted rearrangements of the same results have the same sequence
    of keys. *)
Lemma sort_contract_keys noIndex data out1 out2 :
  sort_contract (getSearchResultsCmpFunc (negb noIndex)) data out1 ->
  sort_contract (getSearchResultsCmpFunc (negb noIndex)) data out2 ->
  sort_key noIndex <$> out1 = sort_key noIndex <$> out2.
Proof.
  intros [Hp1 Hs1] [Hp2 Hs2].
  set (R := fun k1 k2 => key_compare noIndex k2 k1 <> Lt).
  assert (forall out,
             sorted_by (getSearchResultsCmpFunc (negb noIndex)) out ->
             StronglySorted R (sort_key noIndex <$> out)) as Hkeys.
  { intros out Hs. apply sorted_by_StronglySorted in Hs.
    eapply StronglySorted_fmap; [|exact Hs].
    intros x y Hxy. unfold in_order in Hxy. unfold R.
    rewrite less_ranking, ranking_key_compare in Hxy.
    intros Hlt. now rewrite Hlt in Hxy. }
  apply (StronglySorted_unique_strong R); auto.
  - intros k1 k2 _ _ H12 H21. unfold R in *.
    apply (key_compare_Eq noIndex).
    rewrite (key_compare_antisym noIndex k1 k2) in H12.
    destruct (key_compare noIndex k1 k2); simpl in *; congruence.
  - now rewrite <- Hp1, <- Hp2.
Qed.

(** X2.  Whatever sort is used, the keys of the ranked results come out in one
    order: two rearrangements of the same results, in each of which no entry
    is less than one before it, have the same sequence of keys. *)
Theorem ranking_unique noIndex data out1 out2 :
  sort_contract (getSearchResultsCmpFunc (negb noIndex)) data out1 ->
  sort_contract (getSearchResultsCmpFunc (negb noIndex)) data out2 ->
  sort_key noIndex <$> out1 = sort_key noIndex <$> out2.
Proof. apply sort_contract_keys. Qed.

(** The theorem at the two results of indexes "b" and "a": the insertion
    sort and the sorted list written by hand have the same keys. *)
Lemma ranking_unique_witness :
  sort_key false <$> Sort (getSearchResultsCmpFunc (negb false))
                       [examples.b1; examples.a5]
  = sort_key false <$> [examples.a5; examples.b1].
Proof.
  apply (ranking_unique false [examples.b1; examples.a5]).
  - apply ranking.Sort_contract; [apply less_asym|apply less_trans].
  - split.
    + apply perm_swap.
    + intros [|[|i]] [|[|j]] x y Hij Hi Hj; try lia; simpl in Hi, Hj;
        try discriminate.
      injection Hi as <-. injection Hj as <-. reflexivity.
Defined.

End comparator.

(** ** The sorter of the results *)

Module sorter_facts.

Import registrytypes sorter.

(** X3.  [Swap] panics exactly when one of its indices is out of range.
    Otherwise it puts the entry of each of the two places in the other,
    leaves every other place and the length as they are, gives a
    rearrangement of the results, and done once more gives the sorter back. *)
Theorem Swap_exchanges s i j :
  (Swap s i j = None <-> ~ (i < Len s /\ j < Len s)%nat) /\
  (forall s', Swap s i j = Some s' ->
     Results s' !! i = Results s !! j /\
     Results s' !! j = Results s !! i /\
     (forall k, k <> i -> k <> j -> Results s' !! k = Results s !! k) /\
     Len s' = Len s /\
     Permutation (Results s) (Results s') /\
     Swap s' i j = Some s).
Proof.
  unfold Swap, Len. split.
  - destruct (Results s !! i) as [ri|] eqn:Hi.
    + destruct (Results s !! j) as [rj|] eqn:Hj.
      * apply lookup_lt_Some in Hi, Hj. split; [discriminate|]. tauto.
      * apply lookup_ge_None in Hj. split; [|reflexivity]. lia.
    + apply lookup_ge_None in Hi. split; [|reflexivity]. lia.
  - intros s'. destruct (Results s !! i) as [ri|] eqn:Hi; [|discriminate].
    destruct (Results s !! j) as [rj|] eqn:Hj; [|discriminate].
    intros [= <-]. simpl.
    pose proof (lookup_lt_Some _ _ _ Hi) as Hil.
    pose proof (lookup_lt_Some _ _ _ Hj) as Hjl.
    assert (<[j:=ri]> (<[i:=rj]> (Results s)) !! i = Some rj) as Hi'.
    { rewrite list_lookup_insert, length_insert.
      destruct (decide (j = i /\ (j < length (Results s))%nat)) as [[-> _]|_].
      - congruence.
      - now apply list_lookup_insert_eq. }
    assert (<[j:=ri]> (<[i:=rj]> (Results s)) !! j = Some ri) as Hj'.
    { apply list_lookup_insert_eq. now rewrite length_insert. }
    split; [exact Hi'|]. split; [exact Hj'|]. split; [|split; [|split]].
    + intros k Hki Hkj. now rewrite !list_lookup_insert_ne by congruence.
    + now rewrite !length_insert.
    + symmetry. now apply Permutation_insert_swap.
    + rewrite Hi', Hj'. f_equal. destruct s as [results by_]. simpl in *.
      f_equal. apply list_eq. intros k.
      destruct (decide (k = j)) as [->|Hkj].
      { rewrite list_lookup_insert_eq by (now rewrite !length_insert). congruence. }
      rewrite list_lookup_insert_ne by congruence.
      destruct (decide (k = i)) as [->|Hki].
      { rewrite list_lookup_insert_eq by (now rewrite !length_insert). congruence. }
      now rewrite !list_lookup_insert_ne by congruence.
Qed.

(** The theorem at the two results of one repository. *)
Lemma Swap_exchanges_witness :
  Swap {| Results := [examples.p0_3; examples.p1_9];
          By := registry.getSearchResultsCmpFunc true |} 0 1
  = Some {| Results := [examples.p1_9; examples.p0_3];
            By := registry.getSearchResultsCmpFunc true |} /\
  Swap {| Results := [examples.p1_9; examples.p0_3];
          By := registry.getSearchResultsCmpFunc true |} 0 1
  = Some {| Results := [examples.p0_3; examples.p1_9];
            By := registry.getSearchResultsCmpFunc true |}.
Proof.
  split; [reflexivity|].
  apply (proj2 (Swap_exchanges
                  {| Results := [examples.p0_3; examples.p1_9];
                     By := registry.getSearchResultsCmpFunc true |} 0 1)).
  reflexivity.
Defined.

End sorter_facts.

(** ** What the removal of duplicates keeps *)

Module scan.

Import registrytypes registry duplicates.

Section scan.

Variable QueryRegistries : list string.

Abbreviation keep := (keep QueryRegistries).
Abbreviation collapse := (collapse QueryRegistries).
Abbreviation dedup := (dedup QueryRegistries).
Abbreviation removeSearchDuplicates := (removeSearchDuplicates QueryRegistries).

Lemma collide_refl a : collide a a = true.
Proof. unfold collide. now rewrite !String.eqb_refl. Qed.

Lemma collide_trans a b c :
  collide a b = true -> collide b c = collide a c.
Proof.
  intros Hab. apply collide_spec in Hab as [H1 H2].
  unfold collide. now rewrite H1, H2.
Qed.

Lemma collapse_sublist kept data : collapse kept data `sublist_of` kept :: data.
Proof.
  revert kept. induction data as [|curr data IH]; intros kept; simpl.
  - reflexivity.
  - destruct (collide kept curr).
    + etransitivity; [apply IH|].
      destruct (keep_cases QueryRegistries kept curr) as [->| ->].
      * apply sublist_skip. apply sublist_cons. reflexivity.
      * apply sublist_cons. reflexivity.
    + apply sublist_skip, IH.
Qed.

Lemma collapse_covers kept data x :
  x ∈ kept :: data -> exists y, y ∈ collapse kept data /\ collide x y = true.
Proof.
  revert kept x. induction data as [|curr data IH]; intros kept x Hx; simpl.
  - apply list_elem_of_singleton in Hx as ->.
    exists kept. split; [apply list_elem_of_here|apply collide_refl].
  - destruct (collide kept curr) eqn:Hc.
    + assert (exists y, y ∈ collapse (keep kept curr) data /\
                        collide (keep kept curr) y = true) as (y & Hy & Hky).
      { apply IH. apply list_elem_of_here. }
      rewrite (keep_collide QueryRegistries kept curr y Hc) in Hky.
      apply elem_of_cons in Hx as [->|Hx]; [eauto|].
      apply elem_of_cons in Hx as [->|Hx].
      * exists y. split; [assumption|].
        now rewrite (collide_trans kept curr y Hc).
      * apply IH. now apply list_elem_of_further.
    + apply elem_of_cons in Hx as [->|Hx].
      * exists kept. split; [apply list_elem_of_here|apply collide_refl].
      * destruct (IH curr x Hx) as (y & Hy & Hxy).
        exists y. split; [now apply list_elem_of_further|assumption].
Qed.

Lemma dedup_sublist data : dedup data `sublist_of` data.
Proof.
  destruct data as [|data0 data]; simpl; [reflexivity|apply collapse_sublist].
Qed.

(** A list in which no two neighbours collide is left as it is. *)
Lemma collapse_apart kept data :
  (forall i x y, (kept :: data) !! i = Some x -> (kept :: data) !! S i = Some y ->
                 collide x y = false) ->
  collapse kept data = kept :: data.
Proof.
  revert kept. induction data as [|curr data IH]; intros kept Hn; simpl.
  - reflexivity.
  - rewrite (Hn 0%nat kept curr eq_refl eq_refl). f_equal.
    apply IH. intros i x y Hi Hj. exact (Hn (S i) x y Hi Hj).
Qed.

(** X4.  What [removeSearchDuplicates] returns is taken from its argument, in
    the order of the argument, and every entry of the argument has in it an
    entry of the same registry and name: no repository is lost, and none is
    made up. *)
Theorem duplicates_kept data out :
  removeSearchDuplicates data = Some out ->
  out `sublist_of` data /\
  (forall x, x ∈ data -> exists y, y ∈ out /\ collide x y = true) /\
  (data <> [] -> out <> []).
Proof.
  rewrite removeSearchDuplicates_dedup. intros [= <-].
  destruct data as [|data0 data]; simpl.
  - split; [reflexivity|]. split; [|tauto].
    intros x Hx. now apply elem_of_nil in Hx.
  - split; [apply collapse_sublist|]. split; [apply collapse_covers|].
    intros _ Hnil.
    destruct (collapse_head QueryRegistries data0 data data0)
      as (h & rest & Heq & _).
    congruence.
Qed.

(** X5.  The removal of duplicates changes nothing in a list in which no two
    neighbours have the same registry and name, and nothing in what it has
    returned: done twice it does what it does once. *)
Theorem duplicates_idempotent data :
  ((forall i x y, data !! i = Some x -> data !! S i = Some y ->
                  collide x y = false) ->
   removeSearchDuplicates data = Some data) /\
  (forall out, removeSearchDuplicates data = Some out ->
               removeSearchDuplicates out = Some out).
Proof.
  assert (forall l,
             (forall i x y, l !! i = Some x -> l !! S i = Some y ->
                            collide x y = false) ->
             removeSearchDuplicates l = Some l) as Hapart.
  { intros l Hn. rewrite removeSearchDuplicates_dedup.
    destruct l as [|l0 l]; [reflexivity|]. simpl. f_equal.
    now apply collapse_apart. }
  split; [apply Hapart|].
  intros out. rewrite removeSearchDuplicates_dedup. intros [= <-].
  apply Hapart. destruct data as [|data0 data]; simpl.
  - intros i x y Hi. now rewrite lookup_nil in Hi.
  - apply collapse_no_collision.
Qed.

End scan.

(** The first theorem at the pair of p0 and p1. *)
Lemma duplicates_kept_witness :
  [examples.p0_3] `sublist_of` [examples.p0_3; examples.p1_9] /\
  exists y, y ∈ [examples.p0_3] /\ collide examples.p1_9 y = true.
Proof.
  destruct (duplicates_kept ["p0"; "p1"] [examples.p0_3; examples.p1_9]
              [examples.p0_3] eq_refl) as (Hsub & Hcover & _).
  split; [exact Hsub|].
  apply Hcover. apply list_elem_of_further, list_elem_of_here.
Defined.

(** The second theorem at the pair of p0 and p1. *)
Lemma duplicates_idempotent_witness :
  removeSearchDuplicates ["p0"; "p1"] [examples.p0_3] = Some [examples.p0_3].
Proof.
  apply (proj2 (duplicates_idempotent ["p0"; "p1"]
                  [examples.p0_3; examples.p1_9])).
  reflexivity.
Defined.

End scan.

(** ** What a search returns *)

Module aggregate.

Import strings strings_facts registrytypes registry orders duplicates.

(** A list in which every entry is less than every later one is the only
    sorted rearrangement of itself. *)
Lemma strictly_sorted_unique {A} (less : A -> A -> bool) l out :
  (forall i j x y, (i < j)%nat -> l !! i = Some x -> l !! j = Some y ->
                   less x y = true) ->
  Permutation l out -> sorted_by less out -> out = l.
Proof.
  revert out. induction l as [|x l IH]; intros out Hstrict Hperm Hsorted.
  - now apply Permutation_nil_l in Hperm.
  - destruct out as [|h out]; [now apply Permutation_nil_r in Hperm|].
    assert (h = x) as ->.
    { assert (h ∈ x :: l) as Hh by (rewrite Hperm; apply list_elem_of_here).
      apply elem_of_cons in Hh as [?|Hh]; [assumption|].
      apply list_elem_of_lookup in Hh as [k Hk].
      pose proof (Hstrict 0%nat (S k) x h ltac:(lia) eq_refl Hk) as Hxh.
      assert (x ∈ h :: out) as Hx by (rewrite <- Hperm; apply list_elem_of_here).
      apply elem_of_cons in Hx as [?|Hx]; [congruence|].
      apply list_elem_of_lookup in Hx as [m Hm].
      pose proof (Hsorted 0%nat (S m) h x ltac:(lia) eq_refl Hm). congruence. }
    f_equal. apply IH.
    + intros i j y z Hij Hi Hj. apply (Hstrict (S i) (S j)); [lia|assumption..].
    + now apply Permutation_cons_inv in Hperm.
    + intros i j y z Hij Hi Hj. apply (Hsorted (S i) (S j)); [lia|assumption..].
Qed.

Section search.

Context `{Collaborators}.
Variables (limit : Z) (authConfig : option types.AuthConfig)
  (userAgent : string) (headers : list (string * list string)).

Abbreviation searchTerm term :=
  (searchTerm term limit authConfig userAgent headers).
Abbreviation searchRoutine :=
  (searchRoutine limit authConfig userAgent headers).
Abbreviation task_error term :=
  (task_error term limit authConfig userAgent headers).
Abbreviation task_items term :=
  (task_items term limit authConfig userAgent headers).
Abbreviation Search order term noIndex :=
  (Search order term limit authConfig userAgent headers noIndex).

(** A task returns its error, and puts what it found behind what was
    there. *)
Lemma searchTerm_outs term outs :
  searchTerm term outs = (task_error term, outs ++ task_items term).
Proof.
  unfold registry.task_error, registry.task_items, registry.searchTerm.
  destruct (searchTerm_request term limit authConfig userAgent headers)
    as [[index [answer|e]]|e]; simpl; rewrite ?app_nil_r; try reflexivity.
  destruct (NumResults answer <? 1); simpl; now rewrite ?app_nil_r.
Qed.

Lemma join_results order st :
  results (foldl searchRoutine st order)
  = results st ++ (order ≫= fun t => task_items t).
Proof.
  revert st. induction order as [|t order IH]; intros st; simpl.
  - now rewrite app_nil_r.
  - rewrite IH. unfold registry.searchRoutine.
    rewrite searchTerm_outs. simpl. now rewrite <- app_assoc.
Qed.

(** X6.  Two entries of one repository that the ranking does not put side by
    side are both kept: the scan compares neighbours only.  So it is when
    an entry of the same registry, of another name and with a star count in
    between, is among the results. *)
Theorem duplicates_survive_apart a b c :
  collide a c = true -> collide a b = false ->
  removeSearchDuplicates QueryRegistries [a; b; c] = Some [a; b; c] /\
  (RegistryName a = RegistryName b ->
   StarCount c < StarCount b -> StarCount b < StarCount a ->
   forall results, Permutation [a; b; c] results ->
                   Search_rank true results = Some [a; b; c]).
Proof.
  intros Hac Hab.
  assert (collide b c = false) as Hbc.
  { now rewrite (collide_sym b c), (scan.collide_trans a c b Hac). }
  assert (removeSearchDuplicates QueryRegistries [a; b; c] = Some [a; b; c])
    as Hscan.
  { rewrite removeSearchDuplicates_dedup. simpl. now rewrite Hab, Hbc. }
  split; [exact Hscan|].
  intros Hreg Hcb Hba results Hperm. unfold Search_rank.
  rewrite <- Hscan. f_equal.
  apply collide_spec in Hac as [Hreg' _].
  destruct (ranking.Sort_contract (getSearchResultsCmpFunc (negb true))
              (less_asym true) (less_trans true) results) as [Hp Hs].
  apply (strictly_sorted_unique (getSearchResultsCmpFunc (negb true)) [a; b; c]).
  - assert (forall x y,
               RegistryName x = RegistryName y -> StarCount y < StarCount x ->
               getSearchResultsCmpFunc (negb true) x y = true) as Hless.
    { intros x y Hr Hst. unfold getSearchResultsCmpFunc. simpl.
      rewrite Hr, String.eqb_refl. simpl.
      destruct (Z.eqb_spec (StarCount x) (StarCount y)); [lia|]. simpl.
      apply Z.gtb_gt. lia. }
    intros [|[|[|i]]] [|[|[|j]]] x y Hij Hi Hj; try lia; simpl in Hi, Hj;
      try discriminate; injection Hi as <-; injection Hj as <-;
      apply Hless; try lia; congruence.
  - now rewrite Hperm.
  - exact Hs.
Qed.



End search.

(** The theorem at two entries of ["r"]/["x"] with ["r"]/["y"] between
    them: whatever their order in the results, all three are returned. *)
Lemma duplicates_survive_apart_witness :
  Search_rank (H:=examples.daemon) true [examples.x3; examples.x5; examples.y4]
  = Some [examples.x5; examples.y4; examples.x3].
Proof.
  refine (proj2 (duplicates_survive_apart (H:=examples.daemon)
                   examples.x5 examples.y4 examples.x3 eq_refl eq_refl)
            eq_refl eq_refl eq_refl _ _).
  etransitivity; [apply perm_skip, perm_swap|]. apply perm_swap.
Defined.



End aggregate.

(** ** Index names in search terms and in names *)

Module terms.

Import strings strings_facts reference registrytypes registry names.

Lemma ContainsAny_dot_colon d :
  ContainsAny d ".:" = Contains d "." || Contains d ":".
Proof.
  rewrite (Contains_char d "."), (Contains_char d ":"). unfold ContainsRune.
  induction d as [|a d IH]; [reflexivity|].
  cbn [ContainsAny IndexRune]. rewrite IH. unfold ContainsRune.
  cbn [IndexRune].
  rewrite (Ascii.eqb_sym "." a), (Ascii.eqb_sym ":" a).
  destruct (Ascii.eqb a "."), (Ascii.eqb a ":"), (IndexRune d "."),
    (IndexRune d ":"); reflexivity.
Qed.

(** What the parser of names takes for a domain is a valid hostname, and a
    valid hostname is taken for a domain. *)
Lemma is_domain_valid d :
  IndexRune d "/" = None -> is_domain d = isValidHostname d.
Proof.
  intros Hslash. unfold is_domain, isValidHostname.
  rewrite (Contains_char d "/"). unfold ContainsRune at 1. rewrite Hslash.
  rewrite ContainsAny_dot_colon.
  destruct (String.eqb_spec d "") as [->|_]; [reflexivity|].
  now destruct (Contains d "."), (Contains d ":"), (String.eqb d "localhost").
Qed.

Lemma isValidHostname_slash hostname :
  isValidHostname hostname = true -> IndexRune hostname "/" = None.
Proof.
  unfold isValidHostname. rewrite (Contains_char hostname "/").
  unfold ContainsRune. destruct (IndexRune hostname "/"); [|reflexivity].
  now rewrite andb_false_r.
Qed.

Lemma splitReposSearchTerm_splitDomain IndexServerName s :
  splitReposSearchTerm IndexServerName s false = splitDomain s /\
  isReposSearchTermFullyQualified s = negb (String.eqb (splitDomain s).1 "") /\
  splitReposSearchTerm IndexServerName s true =
    (if String.eqb (splitDomain s).1 "" then (IndexServerName, s)
     else splitDomain s).
Proof.
  assert (forall name fix_,
             splitReposSearchTerm name s fix_ =
             if String.eqb (splitDomain s).1 ""
             then (if fix_ then name else "", s) else splitDomain s) as Hsplit.
  { intros name fix_. unfold splitReposSearchTerm, splitDomain, SplitN2.
    rewrite (Index_char s "/").
    destruct (IndexRune s "/") as [i|] eqn:Hi; [|reflexivity].
    rewrite ContainsAny_dot_colon, negb_orb. simpl.
    destruct (negb (Contains (take i s) ".") && negb (Contains (take i s) ":") &&
              negb (String.eqb (take i s) "localhost")) eqn:Hc; [reflexivity|].
    simpl. destruct (String.eqb_spec (take i s) "") as [Hempty|_]; [|reflexivity].
    rewrite Hempty in Hc. discriminate. }
  assert (splitReposSearchTerm IndexServerName s false = splitDomain s) as Hfalse.
  { rewrite Hsplit.
    destruct (splitDomain_spec s) as [->|(d & r & -> & _ & _ & _ & Hd)];
      [reflexivity|].
    simpl. now apply String.eqb_neq in Hd as ->. }
  split; [exact Hfalse|]. split; [|apply Hsplit].
  unfold isReposSearchTermFullyQualified.
  assert (splitReposSearchTerm "" s false = splitDomain s) as ->.
  { rewrite Hsplit.
    destruct (splitDomain_spec s) as [->|(d & r & -> & _ & _ & _ & Hd)];
      [reflexivity|].
    simpl. now apply String.eqb_neq in Hd as ->. }
  now destruct (splitDomain s).
Qed.

(** X9.  The search splits a term the way the parser of names splits a name:
    the same index and remainder when the index is not to be fixed, the
    index server for a term without index when it is, and a term is fully
    qualified exactly when the parser finds a domain in it. *)
Theorem split_agreement IndexServerName s :
  splitReposSearchTerm IndexServerName s false = splitDomain s /\
  isReposSearchTermFullyQualified s = negb (String.eqb (splitDomain s).1 "") /\
  splitReposSearchTerm IndexServerName s true =
    (if String.eqb (splitDomain s).1 "" then (IndexServerName, s)
     else splitDomain s).
Proof. apply splitReposSearchTerm_splitDomain. Qed.

Lemma splitDomain_hostname :
  (forall s domain remainder,
      splitDomain s = (domain, remainder) ->
      (domain = "" /\ remainder = s) \/
      (isValidHostname domain = true /\ s = domain +:+ "/" +:+ remainder)) /\
  (forall DefaultRegistries s,
      (part_000.splitDockerDomain DefaultRegistries s).1 = (splitDomain s).1) /\
  (forall DefaultNamespace DefaultRegistry s,
      (part_001.splitDockerDomain DefaultNamespace DefaultRegistry s).1
      = (splitDomain s).1) /\
  (forall hostname remainder,
      isValidHostname hostname = true ->
      splitDomain (hostname +:+ "/" +:+ remainder) = (hostname, remainder)).
Proof.
  split; [|split; [|split]].
  - intros s domain remainder Hs.
    destruct (splitDomain_spec s) as [Hs'|(d & r & Hs' & Hname & Hslash & Hd & _)];
      rewrite Hs' in Hs; injection Hs as <- <-; [now left|].
    right. split; [|exact Hname]. now rewrite <- is_domain_valid.
  - intros regs s. unfold part_000.splitDockerDomain.
    destruct (splitDomain s) as [d r].
    now destruct (splitDockerDomain_range_cases regs d r) as [->|(-> & _)].
  - intros ns reg s. unfold part_001.splitDockerDomain.
    destruct (splitDomain s) as [d r].
    now destruct ((String.eqb d ns || String.eqb d reg || String.eqb d "") &&
                  negb (ContainsRune r "/")).
  - intros hostname remainder Hv.
    assert (IndexRune hostname "/" = None) as Hslash.
    { apply isValidHostname_slash. exact Hv. }
    apply splitDomain_domain; [exact Hslash|].
    now rewrite is_domain_valid.
Qed.

(** X10.  The domain that the splitting takes off a name is empty or a valid
    hostname, and then the name is the domain, a ['/'] and the remainder
    before any [library/] is put in; and a valid hostname before a ['/'] is
    always taken off. *)
Theorem domain_valid_hostname :
  (forall s domain remainder,
      splitDomain s = (domain, remainder) ->
      (domain = "" /\ remainder = s) \/
      (isValidHostname domain = true /\ s = domain +:+ "/" +:+ remainder)) /\
  (forall DefaultRegistries s,
      (part_000.splitDockerDomain DefaultRegistries s).1 = (splitDomain s).1) /\
  (forall DefaultNamespace DefaultRegistry s,
      (part_001.splitDockerDomain DefaultNamespace DefaultRegistry s).1
      = (splitDomain s).1) /\
  (forall hostname remainder,
      isValidHostname hostname = true ->
      splitDomain (hostname +:+ "/" +:+ remainder) = (hostname, remainder)).
Proof. exact splitDomain_hostname. Qed.

(** The theorem at a name with a host and a port. *)
Lemma domain_valid_hostname_witness :
  splitDomain "localhost:5000/team/app" = ("localhost:5000", "team/app").
Proof.
  apply (proj2 (proj2 (proj2 domain_valid_hostname)) "localhost:5000" "team/app").
  reflexivity.
Defined.

Section routing.

Context `{Collaborators}.

(** X11.  Which index a search task asks.  The first task searches the bare term,
    and asks the index that [IndexServerName()] names, whatever the first
    configured registry is.  The task of a further registry asks that
    registry for the term when the name of the registry is a valid hostname;
    when it is not, and has no ['/'], the task asks the index of
    [IndexServerName()] for the registry name, a ['/'] and the term. *)
Theorem task_routing term i r :
  QueryRegistries !! i = Some r ->
  exists t,
    Search_tasks term !! i = Some t /\
    (i = 0%nat -> isReposSearchTermFullyQualified term = false ->
     t = term /\
     splitReposSearchTerm IndexServerName t true = (IndexServerName, term)) /\
    (i <> 0%nat -> isValidHostname r = true ->
     splitReposSearchTerm IndexServerName t true = (r, term)) /\
    (i <> 0%nat -> ContainsRune r "/" = false -> isValidHostname r = false ->
     splitReposSearchTerm IndexServerName t true
     = (IndexServerName, r +:+ "/" +:+ term)).
Proof.
  intros Hr. unfold Search_tasks. rewrite list_lookup_imap, Hr. simpl.
  eexists. split; [reflexivity|].
  destruct (splitReposSearchTerm_splitDomain IndexServerName term) as (_ & Hq & _).
  split; [|split].
  - intros -> Hunq. simpl. split; [reflexivity|].
    destruct (splitReposSearchTerm_splitDomain IndexServerName term) as (_ & _ & ->).
    rewrite Hq in Hunq. apply negb_false_iff in Hunq. now rewrite Hunq.
  - intros Hi Hv. apply Nat.eqb_neq in Hi. rewrite Hi. cbv iota.
    change (r +:+ String "/" term) with (r +:+ "/" +:+ term).
    destruct (splitReposSearchTerm_splitDomain IndexServerName (r +:+ "/" +:+ term))
      as (_ & _ & ->).
    rewrite (proj2 (proj2 (proj2 splitDomain_hostname)) r term Hv). simpl.
    destruct (String.eqb_spec r "") as [->|_]; [discriminate|reflexivity].
  - intros Hi Hslash Hv. apply Nat.eqb_neq in Hi. rewrite Hi. cbv iota.
    change (r +:+ String "/" term) with (r +:+ "/" +:+ term).
    destruct (splitReposSearchTerm_splitDomain IndexServerName (r +:+ "/" +:+ term))
      as (_ & _ & ->).
    assert (splitDomain (r +:+ "/" +:+ term)
            = ((splitDomain (r +:+ "/" +:+ term)).1,
               (splitDomain (r +:+ "/" +:+ term)).2)) as Hpair
      by apply surjective_pairing.
    destruct (proj1 splitDomain_hostname _ _ _ Hpair)
      as [[-> _]|[Hv' Hname]]; [reflexivity|].
    clear Hpair. exfalso.
    destruct (splitDomain (r +:+ "/" +:+ term)) as [d rest] eqn:Hs. simpl in *.
    assert (d = r) as ->; [|congruence].
    apply isValidHostname_slash in Hv'.
    unfold ContainsRune in Hslash.
    destruct (IndexRune r "/") eqn:Hr'; [discriminate|].
    pose proof (IndexRune_append r "/" term Hr') as H1.
    pose proof (IndexRune_append d "/" rest Hv') as H2.
    rewrite <- Hname in H2. rewrite H1 in H2. injection H2 as Hlen.
    rewrite <- (take_append r (String "/" term)),
      <- (take_append d (String "/" rest)).
    now rewrite Hlen, Hname.
Qed.

(** X12.  How a result of a provider is put down.  Its index name is that of the
    index that was asked, and its stars, flags and description are those of
    the provider.  When a valid hostname stands before the first ['/'] of
    its name, that hostname is its registry and what follows its name;
    otherwise its registry is the index that was asked, and its name is
    kept. *)
Theorem item_attribution index result :
  let item := searchTerm_item index result in
  IndexName item = IndexInfo_Name index /\
  StarCount item = SearchResult.StarCount result /\
  (isReposSearchTermFullyQualified (SearchResult.Name result) = true ->
   isValidHostname (RegistryName item) = true /\
   SearchResult.Name result = RegistryName item +:+ "/" +:+ Name item) /\
  (isReposSearchTermFullyQualified (SearchResult.Name result) = false ->
   RegistryName item = IndexInfo_Name index /\
   Name item = SearchResult.Name result).
Proof.
  cbn zeta. unfold searchTerm_item.
  destruct (splitReposSearchTerm_splitDomain IndexServerName (SearchResult.Name result))
    as (-> & -> & _).
  assert (splitDomain (SearchResult.Name result)
          = ((splitDomain (SearchResult.Name result)).1,
             (splitDomain (SearchResult.Name result)).2)) as Hpair
    by apply surjective_pairing.
  destruct (proj1 splitDomain_hostname _ _ _ Hpair) as [[Hd Hr]|[Hv Hname]];
    clear Hpair;
    destruct (splitDomain (SearchResult.Name result)) as [d r]; simpl in *.
  - subst d. simpl. repeat split; try discriminate; reflexivity.
  - destruct (String.eqb_spec d "") as [->|_]; [discriminate|]. simpl.
    repeat split; try discriminate; assumption.
Qed.

End routing.

(** The first theorem at the second registry of the daemon with three
    registries. *)
Lemma task_routing_witness :
  exists t,
    Search_tasks (H:=examples.federation) "x" !! 1%nat = Some t /\
    splitReposSearchTerm "a.example.com" t true = ("b.example.com", "x").
Proof.
  destruct (task_routing (H:=examples.federation) "x" 1 "b.example.com" eq_refl)
    as (t & Ht & _ & Hvalid & _).
  exists t. split; [exact Ht|]. apply Hvalid; [discriminate|reflexivity].
Defined.

(** The second theorem at a result that names another registry. *)
Lemma item_attribution_witness :
  let result :=
    {| SearchResult.StarCount := 7; SearchResult.IsOfficial := false;
       SearchResult.Name := "quay.example.com/team/app";
       SearchResult.IsAutomated := false; SearchResult.Description := "" |} in
  let index :=
    {| IndexInfo_Name := "a.example.com"; Mirrors := []; Secure := true;
       registrytypes.Official := true |} in
  SearchResult.Name result
  = RegistryName (searchTerm_item (H:=examples.federation) index result)
    +:+ "/" +:+ Name (searchTerm_item (H:=examples.federation) index result).
Proof.
  cbn zeta.
  refine (proj2 (proj1 (proj2 (proj2 (item_attribution (H:=examples.federation)
                                        _ _))) _)).
  reflexivity.
Defined.

End terms.


(** ** What a run of the login loop tells about its endpoints *)

Module attempts.

Import registrytypes registry login endpoints.

Section attempts.

Context `{Collaborators}.
Variables (authConfig : types.AuthConfig) (userAgent : string).

Abbreviation attempt := (attempt authConfig userAgent).
Abbreviation Auth_range := (Auth_range authConfig userAgent).

(** Every run of the loop is one of two: all the endpoints ended in a
    [fallbackError], or the loop returned at the first endpoint that did
    not. *)
Lemma Auth_range_inv endpoints err0 trace0 trace status token err :
  Auth_range endpoints err0 trace0 = (trace, (status, token, err)) ->
  exists pre t',
    trace = trace0 ++ t' /\
    Forall (fun e => is_Some (fallback_of (attempt e))) pre /\
    logged t' = omap (fallback_of ∘ attempt) pre /\
    ((endpoints = pre /\ logins t' = pre /\ status = "" /\ token = "" /\
      err = match last pre with
            | Some e => fallback_of (attempt e)
            | None => err0
            end) \/
     (exists e rest,
         endpoints = pre ++ e :: rest /\ logins t' = pre ++ [e] /\
         fallback_of (attempt e) = None /\
         match attempt e with
         | Ok (s, t) => status = s /\ token = t /\ err = None
         | Err x => status = "" /\ token = "" /\ err = Some x
         end)).
Proof.
  revert err0 trace0.
  induction endpoints as [|e rest IH]; intros err0 trace0.
  - simpl. intros [= <- <- <- <-]. exists [], [].
    rewrite app_nil_r. repeat split; [constructor|]. now left.
  - rewrite Auth_range_cons. cbn zeta.
    destruct (attempt e) as [[s t]|[msg|fe|e']] eqn:Hatt.
    + intros [= <- <- <- <-]. exists [], [Login (Version e) e].
      repeat split; [constructor|]. right. exists e, rest.
      rewrite Hatt. now repeat split.
    + intros [= <- <- <- <-]. exists [], [Login (Version e) e].
      repeat split; [constructor|]. right. exists e, rest.
      rewrite Hatt. now repeat split.
    + intros Hrun.
      destruct (IH _ _ Hrun) as (pre & t' & -> & Hpre & Hlogged & Hcases).
      exists (e :: pre), ([Login (Version e) e; LogInfo (Version e) fe] ++ t').
      split; [now rewrite <- !app_assoc|].
      split; [constructor; [rewrite Hatt; now eexists|assumption]|].
      split.
      { rewrite logged_app, Hlogged. simpl. now rewrite Hatt. }
      destruct Hcases as [(-> & Hlogins & -> & -> & ->)|
                          (e2 & rest2 & -> & Hlogins & Hnot & Hres)].
      * left. repeat split.
        -- rewrite logins_app, Hlogins. reflexivity.
        -- destruct pre as [|e2 pre]; [simpl; now rewrite Hatt|].
           rewrite last_cons_cons.
           destruct (last (e2 :: pre)) eqn:Hlast; [reflexivity|].
           now apply last_None in Hlast.
      * right. exists e2, rest2. repeat split; try assumption.
        rewrite logins_app, Hlogins. reflexivity.
    + intros [= <- <- <- <-]. exists [], [Login (Version e) e].
      repeat split; [constructor|]. right. exists e, rest.
      rewrite Hatt. now repeat split.
Qed.

(** X13.  A run of the login loop, read backwards.  The logins were made at
    the first endpoints, in their order; the errors that were logged are
    those of the logins that ended in a [fallbackError], and every login
    but the last ended so.  When no error is returned, the last login
    succeeded and gave the status and the token, unless there was no
    endpoint at all; when an error is returned, status and token are
    empty, and the error is that of the last login, which either was no
    [fallbackError] or was made at the last of the endpoints. *)
Theorem Auth_outcome endpoints trace status token err :
  Auth_range endpoints None [] = (trace, (status, token, err)) ->
  logins trace `prefix_of` endpoints /\
  logged trace = omap (fallback_of ∘ attempt) (logins trace) /\
  (forall pre e, logins trace = pre ++ [e] ->
                 Forall (fun e' => is_Some (fallback_of (attempt e'))) pre) /\
  (err = None ->
   endpoints = [] /\ status = "" /\ token = "" \/
   exists e, last (logins trace) = Some e /\ attempt e = Ok (status, token)) /\
  (forall x, err = Some x ->
     status = "" /\ token = "" /\
     exists e, last (logins trace) = Some e /\
       (attempt e = Err x /\ fallback_of (attempt e) = None \/
        attempt e = Err (fallbackError x) /\ logins trace = endpoints)).
Proof.
  intros Hrun.
  destruct (Auth_range_inv _ _ _ _ _ _ _ Hrun)
    as (pre & t' & -> & Hpre & Hlogged & Hcases).
  rewrite app_nil_l.
  destruct Hcases as [(-> & Hlogins & -> & -> & ->)|
                      (e & rest & -> & Hlogins & Hnot & Hres)].
  - rewrite Hlogins, Hlogged. split; [reflexivity|]. split; [reflexivity|].
    split; [|split].
    + intros pre' e ->. now apply Forall_app in Hpre as [? _].
    + destruct (last pre) as [e|] eqn:Hlast.
      * intros He. apply last_Some in Hlast as [l' ->].
        apply Forall_app in Hpre as [_ Hpre].
        apply Forall_cons in Hpre as [[fe Hfe] _]. congruence.
      * intros _. left. now apply last_None in Hlast as ->.
    + intros x Hx. split; [reflexivity|]. split; [reflexivity|].
      destruct (last pre) as [e|] eqn:Hlast; [|discriminate].
      exists e. split; [reflexivity|]. right.
      destruct (attempt e) as [[s t]|[msg|fe|e']] eqn:Hatt; try discriminate.
      injection Hx as ->. now split.
  - rewrite Hlogins, Hlogged. split; [|split; [|split; [|split]]].
    + exists rest. now rewrite <- app_assoc.
    + rewrite omap_app. simpl. unfold compose at 2. rewrite Hnot.
      now rewrite app_nil_r.
    + intros pre' e' Heq. apply app_inj_tail in Heq as [<- _]. assumption.
    + intros ->. right. exists e. rewrite last_snoc. split; [reflexivity|].
      destruct (attempt e) as [[s t]|x]; [|now destruct Hres as (_ & _ & ?)].
      now destruct Hres as (-> & -> & _).
    + intros x ->. rewrite last_snoc.
      destruct (attempt e) as [[s t]|x'] eqn:Hatt;
        [now destruct Hres as (_ & _ & ?)|].
      destruct Hres as (-> & -> & [= ->]). split; [reflexivity|].
      split; [reflexivity|]. exists e. split; [reflexivity|]. left.
      now rewrite Hatt.
Qed.

(** X14.  No login is made at a mirror: the logins go to endpoints that the
    loop of [LookupPushEndpoints] kept, in their order, and so do those of
    [Auth]. *)
Theorem Auth_skips_mirrors :
  (forall allEndpoints,
      let run := Auth_range (LookupPushEndpoints_range allEndpoints []) None [] in
      logins run.1 `prefix_of` filter (fun e => Mirror e = false) allEndpoints /\
      Forall (fun e => Mirror e = false) (logins run.1)) /\
  Forall (fun e => Mirror e = false) (logins (Auth authConfig userAgent).1).
Proof.
  assert (forall allEndpoints,
             let run := Auth_range (LookupPushEndpoints_range allEndpoints []) None [] in
             logins run.1 `prefix_of` filter (fun e => Mirror e = false) allEndpoints /\
             Forall (fun e => Mirror e = false) (logins run.1)) as Hloop.
  { intros allEndpoints run. subst run.
    rewrite LookupPushEndpoints_range_filter, app_nil_l.
    destruct (Auth_range _ None []) as [trace [[status token] err]] eqn:Hrun.
    destruct (Auth_range_inv _ _ _ _ _ _ _ Hrun)
      as (pre & t' & -> & _ & _ & Hcases).
    rewrite app_nil_l. cbn [fst].
    assert (logins t' `prefix_of` filter (fun e => Mirror e = false) allEndpoints)
      as Hprefix.
    { destruct Hcases as [(-> & -> & _)|(e & rest & -> & -> & _)].
      - reflexivity.
      - exists rest. now rewrite <- app_assoc. }
    split; [assumption|].
    destruct Hprefix as [rest Hrest]. apply Forall_forall. intros e He.
    assert (e ∈ filter (fun e => Mirror e = false) allEndpoints) as Hin
      by (rewrite Hrest; apply elem_of_app; now left).
    now apply list_elem_of_filter in Hin. }
  split; [exact Hloop|].
  unfold Auth, LookupPushEndpoints. cbn zeta.
  destruct (String.eqb _ ""); [constructor|].
  destruct (url_Parse _) as [u_Host|]; [|constructor].
  destruct (lookupEndpoints u_Host) as [allEndpoints|]; [|constructor].
  apply Hloop.
Qed.

End attempts.

(** The theorem at the daemon of the examples, where the V2 login falls
    back and the V1 login succeeds. *)
Lemma Auth_outcome_witness :
  let run := Auth_range (H:=examples.daemon) examples.account "docker/18.06.1"
               [examples.v2_p0; examples.v1_p0] None [] in
  run.2 = ("Login Succeeded", "", None) /\
  logins run.1 `prefix_of` [examples.v2_p0; examples.v1_p0] /\
  logged run.1 = [errorString "registry does not support v2 API"].
Proof.
  cbn zeta. split; [reflexivity|].
  destruct (Auth_outcome (H:=examples.daemon) examples.account "docker/18.06.1"
              [examples.v2_p0; examples.v1_p0] _ "Login Succeeded" "" None
              eq_refl) as (Hprefix & Hlogged & _).
  split; [exact Hprefix|]. exact (eq_trans Hlogged eq_refl).
Defined.

End attempts.


(** ** Normal and familiar names *)

Module normal.

Import strings strings_facts reference names terms.

Section normal.

Context `{Distribution}.
Variable DefaultRegistries : list string.

Abbreviation splitDockerDomain := (part_000.splitDockerDomain DefaultRegistries).
Abbreviation normalizedName := (part_000.normalizedName DefaultRegistries).
Abbreviation ParseNormalizedNamed :=
  (part_000.ParseNormalizedNamed DefaultRegistries).
Abbreviation trimDefaultRegistry :=
  (part_000.trimDefaultRegistry DefaultRegistries).

(** The splitting finds in a normal name the domain and the remainder that
    it made it of. *)
Lemma splitDockerDomain_normalizedName s :
  splitDockerDomain (normalizedName s) = splitDockerDomain s.
Proof.
  unfold part_000.normalizedName, part_000.splitDockerDomain.
  destruct (splitDomain_spec s) as [Hs|(d & r & Hs & Hname & Hslash & Hd & Hne)];
    rewrite Hs.
  - destruct (splitDockerDomain_range_cases DefaultRegistries "" s)
      as [Hr|(Hr & Hc & _)]; rewrite Hr; cbn [String.eqb]; cbv iota.
    + now rewrite Hs.
    + change (splitDomain ("library/" +:+ s)) with ("", "library/" +:+ s).
      now apply splitDockerDomain_range_keep; left.
  - apply String.eqb_neq in Hne.
    destruct (splitDockerDomain_range_cases DefaultRegistries d r)
      as [Hr|(Hr & Hc & _)]; rewrite Hr, Hne.
    + now rewrite <- Hname, Hs.
    + rewrite (splitDomain_domain d _ Hslash Hd).
      now apply splitDockerDomain_range_keep; left.
Qed.

(** X15.  Normalising is idempotent: the splitting finds in a normal name
    the domain and the remainder it was made of, the normal name of a
    normal name is that name, and [ParseNormalizedNamed] gives for the
    normal name of a name that is no identifier what it gives for the
    name. *)
Theorem normalize_idempotent s :
  splitDockerDomain (normalizedName s) = splitDockerDomain s /\
  normalizedName (normalizedName s) = normalizedName s /\
  (anchoredIdentifierRegexp_MatchString s = false ->
   ParseNormalizedNamed (normalizedName s) = ParseNormalizedNamed s).
Proof.
  assert (normalizedName (normalizedName s) = normalizedName s) as Hn.
  { unfold part_000.normalizedName at 1.
    now rewrite splitDockerDomain_normalizedName. }
  split; [apply splitDockerDomain_normalizedName|]. split; [exact Hn|].
  intros Hid. rewrite !ParseNormalizedNamed_unfold, Hid, Hn.
  rewrite splitDockerDomain_normalizedName.
  destruct (normalizedName_spec DefaultRegistries s)
    as [->|(domain & n & _ & ->)]; [now rewrite Hid|].
  change (domain +:+ "library/" +:+ n) with (domain +:+ "library" +:+ "/" +:+ n).
  rewrite <- (append_assoc domain "library" ("/" +:+ n)).
  now rewrite not_identifier_with_slash.
Qed.

(** X16.  [trimDefaultRegistry] takes back what the normal name of a name
    of one segment at a default registry has more than the segment, the
    registry and [library/]; the [library/] that was put before a name of
    one segment without domain stays, the empty domain being no
    registry. *)
Theorem trim_normalized n :
  ContainsRune n "/" = false ->
  (forall r,
      r ∈ DefaultRegistries -> isValidHostname r = true ->
      normalizedName (r +:+ "/" +:+ n) = r +:+ "/library/" +:+ n /\
      trimDefaultRegistry (normalizedName (r +:+ "/" +:+ n)) = n) /\
  (DefaultRegistries <> [] -> "" ∉ DefaultRegistries ->
   normalizedName n = "library/" +:+ n /\
   trimDefaultRegistry (normalizedName n) = "library/" +:+ n).
Proof.
  intros Hn. split.
  - intros r Hin Hv.
    pose proof (isValidHostname_slash r Hv) as Hslash.
    assert (is_domain r = true) as Hd by (now rewrite is_domain_valid).
    assert (normalizedName (r +:+ "/" +:+ n) = r +:+ "/library/" +:+ n) as Hnorm.
    { unfold part_000.normalizedName, part_000.splitDockerDomain.
      rewrite (splitDomain_domain r n Hslash Hd).
      rewrite (splitDockerDomain_range_library DefaultRegistries r n Hn)
        by (now right).
      destruct (String.eqb_spec r "") as [->|_]; [discriminate|reflexivity]. }
    split; [exact Hnorm|]. rewrite Hnorm.
    now apply (proj1 (proj2 (trimDefaultRegistry_cases DefaultRegistries))).
  - intros Hne Hempty.
    assert (normalizedName n = "library/" +:+ n) as Hnorm.
    { unfold part_000.normalizedName, part_000.splitDockerDomain.
      rewrite (splitDomain_single n Hn).
      now rewrite (splitDockerDomain_range_library DefaultRegistries "" n Hn)
        by (now left). }
    split; [exact Hnorm|]. rewrite Hnorm.
    apply (proj1 (trimDefaultRegistry_cases DefaultRegistries)).
    unfold part_000.splitDockerDomain.
    change (splitDomain ("library/" +:+ n)) with ("", "library/" +:+ n).
    cbv beta iota.
    rewrite splitDockerDomain_range_keep by (now left). exact Hempty.
Qed.

(** X17.  The two files split and parse alike: with its two constants for
    the list of default registries, the splitting of the file that has
    [ParseNamed] is that of the file that has [ParseNormalizedNamed], and
    so is the parsing, but for the identifiers, which [ParseNamed] does not
    refuse. *)
Theorem parsers_agree DefaultNamespace DefaultRegistry s :
  part_000.splitDockerDomain [DefaultNamespace; DefaultRegistry] s
  = part_001.splitDockerDomain DefaultNamespace DefaultRegistry s /\
  part_000.ParseNormalizedNamed [DefaultNamespace; DefaultRegistry] s
  = if anchoredIdentifierRegexp_MatchString s then Err (ErrIdentifier s)
    else part_001.ParseNamed DefaultNamespace DefaultRegistry s.
Proof.
  assert (part_000.splitDockerDomain [DefaultNamespace; DefaultRegistry] s
          = part_001.splitDockerDomain DefaultNamespace DefaultRegistry s)
    as Hsplit.
  { unfold part_000.splitDockerDomain, part_001.splitDockerDomain.
    destruct (splitDomain s) as [d r]. simpl.
    now destruct (String.eqb d DefaultNamespace), (String.eqb d DefaultRegistry),
      (String.eqb d ""), (ContainsRune r "/"). }
  split; [exact Hsplit|].
  unfold part_000.ParseNormalizedNamed, part_001.ParseNamed.
  now rewrite Hsplit.
Qed.

End normal.

(** The theorem at the name [ubuntu], after [docker.io] and alone. *)
Lemma trim_normalized_witness :
  part_000.trimDefaultRegistry ["docker.io"]
    (part_000.normalizedName ["docker.io"] "docker.io/ubuntu") = "ubuntu" /\
  part_000.trimDefaultRegistry ["docker.io"]
    (part_000.normalizedName ["docker.io"] "ubuntu") = "library/ubuntu".
Proof.
  pose proof (trim_normalized ["docker.io"] "ubuntu" eq_refl) as [Hreg Hbare].
  split.
  - apply (Hreg "docker.io"); [apply list_elem_of_here|reflexivity].
  - apply Hbare; [discriminate|].
    intros Hin. apply list_elem_of_singleton in Hin. discriminate.
Defined.

End normal.


(** ** Substituting the name of a reference *)

Module substitute.

Import strings strings_facts reference utils qualify terms.

Section substitute.

Context `{Distribution}.

(** What the code relies on in the library: a reference made of a name has
    that name and neither tag nor digest; a tag or a digest that is given
    to such a reference is what is added to it; and a valid hostname
    before the first ['/'] of the name is the hostname of a reference. *)
Hypothesis WithName_Name :
  forall s n, WithName s = Ok n -> Name n = s /\ Tag n = None /\ Digest n = None.
Hypothesis WithTag_Tag :
  forall n t n',
    Digest n = None -> WithTag n t = Ok n' ->
    Name n' = Name n /\ Tag n' = Some t /\ Digest n' = None.
Hypothesis WithDigest_Digest :
  forall n d n',
    Tag n = None -> WithDigest n d = Ok n' ->
    Name n' = Name n /\ Tag n' = None /\ Digest n' = Some d.
Hypothesis SplitHostname_Name :
  forall n d r,
    Name n = d +:+ "/" +:+ r -> isValidHostname d = true ->
    SplitHostname n = (d, r).

Lemma SubstituteReferenceName_spec ref reposName newRef :
  SubstituteReferenceName ref reposName = Ok newRef ->
  Name newRef = reposName /\
  match Tag ref with
  | Some t => Tag newRef = Some t /\ Digest newRef = None
  | None => Tag newRef = None /\ Digest newRef = Digest ref
  end.
Proof.
  unfold SubstituteReferenceName.
  destruct (WithName reposName) as [n|] eqn:Hn; [|discriminate].
  destruct (WithName_Name _ _ Hn) as (Hname & Htag & Hdigest).
  destruct (Tag ref) as [t|].
  - destruct (WithTag n t) as [n'|] eqn:Ht; [|discriminate]. intros [= <-].
    destruct (WithTag_Tag _ _ _ Hdigest Ht) as (-> & -> & ->). auto.
  - destruct (Digest ref) as [d|].
    + destruct (WithDigest n d) as [n'|] eqn:Hd; [|discriminate]. intros [= <-].
      destruct (WithDigest_Digest _ _ _ Htag Hd) as (-> & -> & ->). auto.
    + intros [= <-]. auto.
Qed.

(** X18.  The reference that [SubstituteReferenceName] returns has the new
    name.  It has the tag of the old reference if that has one, and then no
    digest, whatever digest the old reference has; it has the digest of the
    old reference if that has no tag. *)
Theorem substitute_keeps_tag ref reposName newRef :
  SubstituteReferenceName ref reposName = Ok newRef ->
  Name newRef = reposName /\
  match Tag ref with
  | Some t => Tag newRef = Some t /\ Digest newRef = None
  | None => Tag newRef = None /\ Digest newRef = Digest ref
  end.
Proof. apply SubstituteReferenceName_spec. Qed.


End substitute.

Lemma simple_WithName s (n : Named (Distribution:=simple.distribution)) :
  WithName s = Ok n -> Name n = s /\ Tag n = None /\ Digest n = None.
Proof.
  simpl. unfold simple.withName. destruct (String.eqb s ""); [discriminate|].
  now intros [= <-].
Qed.

Lemma simple_WithTag (n : Named (Distribution:=simple.distribution)) t n' :
  Digest n = None -> WithTag n t = Ok n' ->
  Name n' = Name n /\ Tag n' = Some t /\ Digest n' = None.
Proof. now intros _ [= <-]. Qed.

Lemma simple_WithDigest (n : Named (Distribution:=simple.distribution)) d n' :
  Tag n = None -> WithDigest n d = Ok n' ->
  Name n' = Name n /\ Tag n' = None /\ Digest n' = Some d.
Proof. now intros _ [= <-]. Qed.

Lemma simple_SplitHostname (n : Named (Distribution:=simple.distribution)) d r :
  Name n = d +:+ "/" +:+ r -> isValidHostname d = true ->
  SplitHostname n = (d, r).
Proof.
  simpl. intros -> Hv. now apply (proj2 (proj2 (proj2 splitDomain_hostname))).
Qed.

(** The theorem at a reference with a tag and a digest: the digest is
    dropped. *)
Lemma substitute_keeps_tag_witness :
  let ref := {| simple.name := "ubuntu"; simple.tag := Some "18.04";
                simple.digest := Some "sha256:0123" |} in
  let newRef := {| simple.name := "mirror.example.com/ubuntu";
                   simple.tag := Some "18.04"; simple.digest := None |} in
  SubstituteReferenceName (H:=simple.distribution) ref "mirror.example.com/ubuntu"
  = Ok newRef /\
  simple.name newRef = "mirror.example.com/ubuntu" /\
  simple.tag newRef = Some "18.04" /\ simple.digest newRef = None.
Proof.
  cbn zeta. split; [reflexivity|].
  exact (substitute_keeps_tag (H:=simple.distribution)
           simple_WithName simple_WithTag simple_WithDigest
           {| simple.name := "ubuntu"; simple.tag := Some "18.04";
              simple.digest := Some "sha256:0123" |}
           "mirror.example.com/ubuntu"
           {| simple.name := "mirror.example.com/ubuntu";
              simple.tag := Some "18.04"; simple.digest := None |} eq_refl).
Defined.


End substitute.
